(** * EML attachment extractor: a shallow embedding of [EML附件提取器.py]

    The model follows [EmlExtractorApp.sanitize_filename], [decode_header],
    [extract_attachments] and [extraction_worker].  A Python [str] is the
    list of its code points, [bytes] the list of its bytes; the file system
    the extractor writes to is an explicit state; calls into the Python
    standard library whose result is not determined by the extractor's own
    code (the RFC 2047 word splitter, the codecs, the message parser) are
    the methods of the class [Library]. *)

From stdpp Require Import base option list gmap sets strings.
From Stdlib Require Import NArith Lia Ascii.
From Stdlib Require DecimalN.

Local Open Scope N_scope.
#[local] Set Warnings "-clear-no-such-hyp".

(** ** Python strings and bytes *)

Abbreviation pystr := (list N).
Abbreviation bytes := (list N).

(** An ASCII literal as a Python string. *)
Definition lit (s : string) : pystr :=
  (λ a, N_of_ascii a) <$> String.list_ascii_of_string s.

Definition UNDERSCORE : N := 95.
Definition SPACE : N := 32.
Definition DOT : N := 46.
Definition SLASH : N := 47.

(** The character class of [illegal_chars]: less-than, greater-than, colon,
    double quote, slash, backslash, vertical bar, question mark, asterisk. *)
Definition illegal_chars : list N := [60; 62; 58; 34; 47; 92; 124; 63; 42].

(** The literal 未命名 returned for an empty name. *)
Definition UNNAMED : pystr := [26410; 21629; 21517].

(** The literal 其他 used when a name has no extension. *)
Definition OTHER : pystr := [20854; 20182].

(** [re.sub(class, repl, s)] for a one-character class and a
    one-character replacement. *)
Definition re_sub (class : list N) (repl : N) (s : pystr) : pystr :=
  (λ c, if bool_decide (c ∈ class) then repl else c) <$> s.

(** [s.lstrip(chars)], [s.rstrip(chars)], [s.strip(chars)]. *)
Fixpoint lstrip (chars : list N) (s : pystr) : pystr :=
  match s with
  | [] => []
  | c :: s' => if bool_decide (c ∈ chars) then lstrip chars s' else s
  end.

Definition rstrip (chars : list N) (s : pystr) : pystr :=
  reverse (lstrip chars (reverse s)).

Definition strip (chars : list N) (s : pystr) : pystr :=
  rstrip chars (lstrip chars s).

(** [s.rfind(c)]: the last index of [c], [-1] when there is none. *)
Fixpoint rfind_from (i : Z) (c : N) (s : pystr) : Z :=
  match s with
  | [] => (-1)%Z
  | x :: s' =>
      let r := rfind_from (i + 1)%Z c s' in
      if bool_decide (r = (-1)%Z) then
        (if bool_decide (x = c) then i else (-1)%Z)
      else r
  end.

Definition rfind (c : N) (s : pystr) : Z := rfind_from 0%Z c s.

(** [str(n)] for a non-negative integer. *)
Fixpoint digits (d : Decimal.uint) : pystr :=
  match d with
  | Decimal.Nil => []
  | Decimal.D0 d => 48 :: digits d
  | Decimal.D1 d => 49 :: digits d
  | Decimal.D2 d => 50 :: digits d
  | Decimal.D3 d => 51 :: digits d
  | Decimal.D4 d => 52 :: digits d
  | Decimal.D5 d => 53 :: digits d
  | Decimal.D6 d => 54 :: digits d
  | Decimal.D7 d => 55 :: digits d
  | Decimal.D8 d => 56 :: digits d
  | Decimal.D9 d => 57 :: digits d
  end.

Definition str_int (n : N) : pystr := digits (N.to_uint n).

(** [s.lower()] on an ASCII string. *)
Definition ascii_lower (c : N) : N :=
  if bool_decide (65 ≤ c ∧ c ≤ 90) then c + 32 else c.

Definition is_ascii (c : N) : bool := bool_decide (c < 128).

(** ** [sanitize_filename] (lines 275-285) *)

Definition sanitize_filename (filename : pystr) : pystr :=
  let sanitized := re_sub illegal_chars UNDERSCORE filename in
  let sanitized := strip [SPACE; DOT] sanitized in
  let sanitized :=
    if bool_decide (200 < length sanitized)%nat then take 200 sanitized
    else sanitized in
  if bool_decide (sanitized = []) then UNNAMED else sanitized.

(** The rule in the words of the specification: the same pipeline, but the
    strip step removes leading and trailing whitespace (the characters for
    which [str.isspace] holds) together with ['.']. *)
Definition whitespace : list N :=
  [9; 10; 11; 12; 13; 28; 29; 30; 31; 32; 133; 160; 5760; 8192; 8193; 8194;
   8195; 8196; 8197; 8198; 8199; 8200; 8201; 8202; 8232; 8233; 8239; 8287;
   12288].

Definition sanitize_as_specified (filename : pystr) : pystr :=
  let replaced := re_sub illegal_chars UNDERSCORE filename in
  let stripped := strip (whitespace ++ [DOT]) replaced in
  let truncated := take 200 stripped in
  if bool_decide (truncated = []) then UNNAMED else truncated.

(** [strips_to chars s t]: [t] is [s] without its longest prefix and
    longest suffix made of members of [chars]. *)
Definition strips_to (chars : list N) (s t : pystr) : Prop :=
  ∃ pre post,
    s = pre ++ t ++ post ∧
    Forall (λ c, c ∈ chars) pre ∧ Forall (λ c, c ∈ chars) post ∧
    (∀ c, head t = Some c → c ∉ chars) ∧
    (∀ c, last t = Some c → c ∉ chars).

(** ** Paths ([pathlib], [os.path])

    A path is the sequence of its components below the root
    ([PurePath.parts] without the anchor).  Joining a path with a
    non-empty name that holds no separator and is not a lone dot appends
    one component; every name the extractor joins is of that form. *)

Abbreviation path := (list (list N)).

Definition joinpath (p : path) (name : pystr) : path := p ++ [name].

(** [str(p)] for an absolute POSIX path. *)
Definition path_str (p : path) : pystr :=
  match p with
  | [] => [SLASH]
  | _ => concat ((λ c, SLASH :: c) <$> p)
  end.

(** [Path(p).name]. *)
Definition path_name (p : path) : pystr := default [] (last p).

(** [PurePath.suffix] and [PurePath.stem] of a final component [name]:
    the last dot counts when it is neither the first nor the last
    character. *)
Definition suffix (name : pystr) : pystr :=
  let i := rfind DOT name in
  if bool_decide (0 < i ∧ i < Z.of_nat (length name) - 1)%Z
  then drop (Z.to_nat i) name else [].

Definition stem (name : pystr) : pystr :=
  let i := rfind DOT name in
  if bool_decide (0 < i ∧ i < Z.of_nat (length name) - 1)%Z
  then take (Z.to_nat i) name else name.

(** [genericpath._splitext(p, sep, altsep, extsep)] with [extsep] the dot:
    split at the last dot when it lies after the last separator and is
    preceded, within the final component, by a character that is no dot. *)
Definition genericpath_splitext (p : pystr) (sep : N) (altsep : option N)
  : pystr * pystr :=
  let sepIndex :=
    match altsep with
    | Some a => Z.max (rfind sep p) (rfind a p)
    | None => rfind sep p
    end in
  let dotIndex := rfind DOT p in
  if bool_decide (sepIndex < dotIndex)%Z then
    let leading :=
      take (Z.to_nat (dotIndex - (sepIndex + 1)))
           (drop (Z.to_nat (sepIndex + 1)) p) in
    if forallb (λ c, bool_decide (c = DOT)) leading then (p, [])
    else (take (Z.to_nat dotIndex) p, drop (Z.to_nat dotIndex) p)
  else (p, []).

(** [os.path.splitext] of [posixpath]; [ntpath] passes the backslash as
    [sep] and the slash as [altsep]. *)
Definition splitext (p : pystr) : pystr * pystr :=
  genericpath_splitext p SLASH None.

Definition nt_splitext (p : pystr) : pystr * pystr :=
  genericpath_splitext p 92 (Some SLASH).

(** ** Exceptions *)

Inductive exn_class :=
  | LookupError | UnicodeDecodeError | UnicodeError | ValueError
  | HeaderParseError | FileExistsError | NotADirectoryError
  | IsADirectoryError | FileNotFoundError | OSError | MemoryError
  | OtherException.

(** An exception: its class and [str(e)]. *)
Record exn := Exn { exn_class_of : exn_class; exn_str : pystr }.

Inductive result (A : Type) :=
  | Ok (a : A)
  | Raise (e : exn).
Arguments Ok {A} a.
Arguments Raise {A} e.

(** [except (LookupError, UnicodeDecodeError)]. *)
Definition is_lookup_or_decode_error (e : exn) : bool :=
  match exn_class_of e with
  | LookupError | UnicodeDecodeError => true
  | _ => false
  end.

(** ** Messages

    A parsed message part, as the extractor reads it: the subject header
    ([get] of Subject, absent when there is none), the content disposition
    ([get_content_disposition]), the file name ([get_filename]), the
    decoded body ([get_payload] with [decode=True]) and the sub-parts. *)

#[warnings="-register-all"]
Inductive message := Message {
  msg_subject : option pystr;
  msg_disposition : option pystr;
  msg_filename : option pystr;
  msg_payload : option bytes;
  msg_parts : list message
}.

(** [msg.walk()]: the part itself, then the walk of each sub-part. *)
Fixpoint walk (m : message) : list message :=
  match m with
  | Message _ _ _ _ parts => m :: flat_map walk parts
  end.

(** ** The library interface *)

(** One pair of the list [email.header.decode_header] returns: the part
    is [bytes] or [str], the charset may be [None]. *)
Inductive chunk :=
  | CBytes (b : bytes)
  | CStr (s : pystr).

Class Library := {
  (** [email.header.decode_header(value)]; documented to raise
      [HeaderParseError] on, for one, a base64 decoding error. *)
  email_header_decode_header : pystr → result (list (chunk * option pystr));
  (** [b.decode(encoding, errors=replace)] for a declared charset. *)
  codec_decode : pystr → bytes → result pystr;
  (** [b.decode(utf-8, errors=replace)], which always returns. *)
  utf8_replace : bytes → pystr;
  (** [s.lower()] on a string with a character outside ASCII. *)
  unicode_lower : pystr → pystr;
  (** Opening the file and [BytesParser(policy=policy.default).parse]. *)
  read_message : path → result message
}.

Definition UTF8 : pystr := lit "utf-8".
Definition ATTACHMENT : pystr := lit "attachment".

Section Extractor.
Context `{Library}.

Definition bytes_decode (encoding : pystr) (b : bytes) : result pystr :=
  if bool_decide (encoding = UTF8) then Ok (utf8_replace b)
  else codec_decode encoding b.

Definition str_lower (s : pystr) : pystr :=
  if forallb is_ascii s then ascii_lower <$> s else unicode_lower s.

(** ** [decode_header] (lines 287-301) *)

(** [charset or utf-8]. *)
Definition charset_or_utf8 (charset : option pystr) : pystr :=
  match charset with
  | Some (c :: cs) => c :: cs
  | _ => UTF8
  end.

(** The body of the [for] loop for one pair. *)
Definition decode_part (pc : chunk * option pystr) : result pystr :=
  match pc.1 with
  | CBytes b =>
      match bytes_decode (charset_or_utf8 pc.2) b with
      | Ok s => Ok s
      | Raise e =>
          if is_lookup_or_decode_error e then bytes_decode UTF8 b
          else Raise e
      end
  | CStr s => Ok s
  end.

Fixpoint decode_parts (decoded_parts : list (chunk * option pystr))
    (decoded_str : pystr) : result pystr :=
  match decoded_parts with
  | [] => Ok decoded_str
  | pc :: rest =>
      match decode_part pc with
      | Ok s => decode_parts rest (decoded_str ++ s)
      | Raise e => Raise e
      end
  end.

Definition decode_header (header_value : option pystr) : result pystr :=
  match header_value with
  | None => Ok []
  | Some v =>
      match email_header_decode_header v with
      | Ok decoded_parts => decode_parts decoded_parts []
      | Raise e => Raise e
      end
  end.

End Extractor.

(** ** The file system

    The regular files with their content and the directories, by path.
    The root, the empty path, is a directory. *)

Record fs := FS {
  fs_files : gmap path bytes;
  fs_dirs : gset path
}.

(** [open(p, rb).read()]. *)
Definition read_file (s : fs) (p : path) : option bytes := fs_files s !! p.

Definition is_file (s : fs) (p : path) : Prop := is_Some (read_file s p).

(** [Path.exists()]. *)
Definition path_exists (s : fs) (p : path) : bool :=
  bool_decide (is_file s p ∨ p ∈ fs_dirs s).

Definition is_dir (s : fs) (p : path) : bool :=
  bool_decide (p = [] ∨ p ∈ fs_dirs s).

Definition fs_size (s : fs) : nat := size (fs_files s) + size (fs_dirs s).

(** The paths at which something exists. *)
Definition existing (s : fs) : gset path := dom (fs_files s) ∪ fs_dirs s.

(** [s'] holds every file of [s], with the same content, and every
    directory of [s]. *)
Definition fs_le (s s' : fs) : Prop :=
  (∀ p data, read_file s p = Some data → read_file s' p = Some data) ∧
  fs_dirs s ⊆ fs_dirs s'.

(** The ancestors of [p] below the root, and [p] with them. *)
Definition ancestors (p : path) : list path :=
  (λ n, take n p) <$> seq 1 (length p - 1).

Definition ancestors_and_self (p : path) : list path :=
  (λ n, take n p) <$> seq 1 (length p).

Definition os_error (c : exn_class) (text : string) (p : path) : exn :=
  Exn c (lit text ++ lit ": '" ++ path_str p ++ lit "'").

(** [p.mkdir(parents=True, exist_ok=True)]: fails when [p] is a regular
    file or lies below one, and otherwise leaves [p] and all its
    ancestors directories. *)
Definition mkdir (s : fs) (p : path) : result fs :=
  if bool_decide (is_file s p) then
    Raise (os_error FileExistsError "[Errno 17] File exists" p)
  else if bool_decide (Exists (is_file s) (ancestors p)) then
    Raise (os_error NotADirectoryError "[Errno 20] Not a directory" p)
  else Ok (FS (fs_files s) (fs_dirs s ∪ list_to_set (ancestors_and_self p))).

(** [with open(p, wb) as f: f.write(data)]: creates the file or replaces
    its content. *)
Definition write_file (s : fs) (p : path) (data : bytes) : result fs :=
  if bool_decide (p ∈ fs_dirs s) then
    Raise (os_error IsADirectoryError "[Errno 21] Is a directory" p)
  else if is_dir s (removelast p) then
    Ok (FS (<[p := data]> (fs_files s)) (fs_dirs s))
  else
    Raise (os_error FileNotFoundError "[Errno 2] No such file or directory" p).


(** ** [extract_attachments] (lines 303-365) *)

Record options := Options {
  create_subfolder : bool;
  classify_by_type : bool
}.

(** Truth value of an optional string or of optional bytes. *)
Definition truthy (o : option (list N)) : bool :=
  match o with
  | Some (_ :: _) => true
  | _ => false
  end.

(** [f-string] of line 353. *)
Definition numbered_name (safe_filename : pystr) (counter : N) : pystr :=
  let '(name, ext) := splitext safe_filename in
  name ++ [UNDERSCORE] ++ str_int counter ++ ext.

(** The [while output_path.exists()] loop of lines 351-354, run for at
    most [fuel] tests of the condition; [None] when they do not suffice.
    Two more tests than the file system has entries always suffice
    ([resolve_collision_total]). *)
Fixpoint resolve_collision (fuel : nat) (s : fs) (output_dir : path)
    (safe_filename : pystr) (output_path : path) (counter : N)
  : option path :=
  match fuel with
  | O => None
  | S fuel' =>
      if path_exists s output_path then
        resolve_collision fuel' s output_dir safe_filename
          (joinpath output_dir (numbered_name safe_filename counter))
          (counter + 1)
      else Some output_path
  end.

Section Extraction.
Context `{Library}.
Variable opts : options.

(** Lines 341-345. *)
Definition type_label (safe_filename : pystr) : pystr :=
  let ext := lstrip [DOT] (str_lower (suffix safe_filename)) in
  if bool_decide (ext = []) then OTHER else ext.

Definition target_dir (base_output_dir : path) (safe_filename : pystr)
  : path :=
  if classify_by_type opts
  then joinpath base_output_dir (type_label safe_filename)
  else base_output_dir.

(** Lines 340-360: one attachment with a non-empty payload. *)
Definition save_attachment (base_output_dir : path) (safe_filename : pystr)
    (payload : bytes) (s : fs) (attachments_found : list path)
  : option (fs * result (list path)) :=
  let output_dir := target_dir base_output_dir safe_filename in
  match mkdir s output_dir with
  | Raise e => Some (s, Raise e)
  | Ok s1 =>
      match resolve_collision (S (S (fs_size s1))) s1 output_dir safe_filename
              (joinpath output_dir safe_filename) 1 with
      | None => None
      | Some output_path =>
          match write_file s1 output_path payload with
          | Raise e => Some (s1, Raise e)
          | Ok s2 => Some (s2, Ok (attachments_found ++ [output_path]))
          end
      end
  end.

(** Lines 328-360: the body of the [for part in msg.walk()] loop. *)
Definition extract_part (base_output_dir : path) (part : message)
    (s : fs) (attachments_found : list path)
  : option (fs * result (list path)) :=
  if bool_decide (msg_disposition part = Some ATTACHMENT) then
    if truthy (msg_filename part) then
      match decode_header (msg_filename part) with
      | Raise e => Some (s, Raise e)
      | Ok filename =>
          let safe_filename := sanitize_filename filename in
          match msg_payload part with
          | Some (b :: bs) =>
              save_attachment base_output_dir safe_filename (b :: bs)
                s attachments_found
          | _ => Some (s, Ok attachments_found)
          end
      end
    else Some (s, Ok attachments_found)
  else Some (s, Ok attachments_found).

Fixpoint extract_parts (base_output_dir : path) (parts : list message)
    (s : fs) (attachments_found : list path)
  : option (fs * result (list path)) :=
  match parts with
  | [] => Some (s, Ok attachments_found)
  | part :: rest =>
      match extract_part base_output_dir part s attachments_found with
      | Some (s', Ok found) => extract_parts base_output_dir rest s' found
      | r => r
      end
  end.

(** Lines 311-322. *)
Definition subject_of (subject : pystr) (eml_path : path) : pystr :=
  if bool_decide (subject = []) then stem (path_name eml_path) else subject.

Definition base_output_dir_of (output_base_dir : path) (safe_subject : pystr)
  : path :=
  if create_subfolder opts then joinpath output_base_dir safe_subject
  else output_base_dir.

(** The [try] block, lines 308-362. *)
Definition extract_try (s : fs) (eml_path output_base_dir : path)
  : option (fs * result (list path)) :=
  match read_message eml_path with
  | Raise e => Some (s, Raise e)
  | Ok msg =>
      match decode_header (Some (default [] (msg_subject msg))) with
      | Raise e => Some (s, Raise e)
      | Ok subject =>
          let safe_subject :=
            sanitize_filename (subject_of subject eml_path) in
          let base_output_dir :=
            base_output_dir_of output_base_dir safe_subject in
          match mkdir s base_output_dir with
          | Raise e => Some (s, Raise e)
          | Ok s1 => extract_parts base_output_dir (walk msg) s1 []
          end
      end
  end.

(** The whole function: the pair it returns, and the file system it
    leaves.  [None] stands for a run whose collision loop was cut short. *)
Definition extract_attachments (s : fs) (eml_path output_base_dir : path)
  : option (fs * (list path * option pystr)) :=
  match extract_try s eml_path output_base_dir with
  | None => None
  | Some (s', Ok attachments_found) => Some (s', (attachments_found, None))
  | Some (s', Raise e) => Some (s', ([], Some (exn_str e)))
  end.

(** ** [extraction_worker] (lines 392-438) *)

Record counters := Counters {
  total_attachments : nat;
  success_count : nat;
  error_count : nat
}.

(** The lines the loop writes to the log. *)
Inductive log_line :=
  | LogFile (file_name : pystr)
  | LogError (error : pystr)
  | LogAttachment (name : pystr)
  | LogNoAttachment.

Fixpoint worker_loop (eml_files : list path) (output_dir : path)
    (s : fs) (c : counters) (log : list log_line)
  : option (fs * counters * list log_line) :=
  match eml_files with
  | [] => Some (s, c, log)
  | eml_path :: rest =>
      let log := log ++ [LogFile (path_name eml_path)] in
      match extract_attachments s eml_path output_dir with
      | None => None
      | Some (s', (attachments, error)) =>
          if truthy error then
            worker_loop rest output_dir s'
              (Counters (total_attachments c) (success_count c)
                        (error_count c + 1))
              (log ++ [LogError (default [] error)])
          else if bool_decide (attachments ≠ []) then
            worker_loop rest output_dir s'
              (Counters (total_attachments c + length attachments)
                        (success_count c + 1) (error_count c))
              (log ++ ((λ att, LogAttachment (path_name att)) <$> attachments))
          else
            worker_loop rest output_dir s'
              (Counters (total_attachments c) (success_count c + 1)
                        (error_count c))
              (log ++ [LogNoAttachment])
      end
  end.

Definition extraction_worker (eml_files : list path) (output_dir : path)
    (s : fs) : option (fs * counters * list log_line) :=
  worker_loop eml_files output_dir s (Counters 0 0 0) [].

(** The results of the calls the worker makes, in the order it makes
    them: the batch driver of the specification. *)
Fixpoint extract_batch (eml_files : list path) (output_dir : path) (s : fs)
  : option (list (path * (list path * option pystr))) :=
  match eml_files with
  | [] => Some []
  | eml_path :: rest =>
      match extract_attachments s eml_path output_dir with
      | None => None
      | Some (s', r) =>
          match extract_batch rest output_dir s' with
          | None => None
          | Some rs => Some ((eml_path, r) :: rs)
          end
      end
  end.

End Extraction.

(** ** Specification-level notions *)

Section Notions.
Context `{Library}.
Variable opts : options.

(** A part the loop saves: an attachment with a file name and a body. *)
Definition is_attachment (part : message) : bool :=
  bool_decide (msg_disposition part = Some ATTACHMENT)
  && truthy (msg_filename part) && truthy (msg_payload part).

(** The text one pair of the splitter contributes to the decoded header. *)
Definition word_text (pc : chunk * option pystr) : pystr :=
  match pc.1 with
  | CStr s => s
  | CBytes b =>
      match bytes_decode (charset_or_utf8 pc.2) b with
      | Ok s => s
      | Raise _ => utf8_replace b
      end
  end.

(** The decoding of a pair either returns or raises one of the two
    exception classes the loop handles. *)
Definition word_handled (pc : chunk * option pystr) : Prop :=
  ∀ b e, pc.1 = CBytes b →
    bytes_decode (charset_or_utf8 pc.2) b = Raise e →
    is_lookup_or_decode_error e = true.

(** The names the collision rule can give a file called [safe_filename]. *)
Definition resolved_name (safe_filename n : pystr) : Prop :=
  n = safe_filename ∨ ∃ k, 1 ≤ k ∧ n = numbered_name safe_filename k.

(** [p] is the file written for [part] below [base_output_dir], as the
    file system [s] holds it. *)
Definition written_as (base_output_dir : path) (s : fs) (p : path)
    (part : message) : Prop :=
  ∃ filename n,
    decode_header (msg_filename part) = Ok filename ∧
    resolved_name (sanitize_filename filename) n ∧
    p = joinpath (target_dir opts base_output_dir
                    (sanitize_filename filename)) n ∧
    read_file s p = msg_payload part.

(** The sanitization rule as the specification words it, with its three
    consequences. *)
Definition sanitization_as_specified (filename : pystr) : Prop :=
  sanitize_filename filename = sanitize_as_specified filename ∧
  Forall (λ c, c ∉ illegal_chars) (sanitize_filename filename) ∧
  sanitize_filename filename ≠ [] ∧
  (length (sanitize_filename filename) ≤ 200)%nat.

(** Skipping as the specification words it: an attachment part whose file
    name decodes to the empty string leaves the file system and the list
    of written paths as they are, without an error. *)
Definition skipped_when_decoded_empty (base_output_dir : path)
    (part : message) (s : fs) (attachments_found : list path) : Prop :=
  msg_disposition part = Some ATTACHMENT →
  decode_header (msg_filename part) = Ok [] →
  extract_part opts base_output_dir part s attachments_found
  = Some (s, Ok attachments_found).

(** Header decoding as the specification words it: it returns a string
    whatever the header value. *)
Definition decode_header_never_raises (header_value : option pystr) : Prop :=
  ∃ decoded_str, decode_header header_value = Ok decoded_str.

End Notions.

(** The label as the specification words it for a name with an illegal
    character in its extension: the extension with its illegal
    characters replaced (and in lower case, as every label). *)
Definition label_as_specified `{Library} (name ext : pystr) : Prop :=
  type_label (sanitize_filename (name ++ DOT :: ext))
  = ascii_lower <$> re_sub illegal_chars UNDERSCORE ext.

(** The file names the log announces, in order. *)
Definition log_files (log : list log_line) : list pystr :=
  omap (λ l, match l with LogFile file_name => Some file_name | _ => None end)
    log.

(** A result the worker counts as failed ([if error:]), and the number of
    paths a result holds. *)
Definition counted_failed (r : path * (list path * option pystr)) : bool :=
  truthy r.2.2.

Definition written_count (r : path * (list path * option pystr)) : nat :=
  length r.2.1.

(** ** Sample data

    A library that answers as CPython 3.11 does on the header values, the
    charsets and the bytes the examples use: a header value without an
    encoded word is returned as one [str] pair, an encoded word with an
    empty text decodes to empty bytes, a base64 word of one character
    raises [HeaderParseError]; no charset other than UTF-8 is known, and
    the codec named undefined raises [UnicodeError]; UTF-8 decoding is
    given on ASCII bytes. *)

Definition sample_decode_header (v : pystr)
  : result (list (chunk * option pystr)) :=
  if bool_decide (v = lit "=?utf-8?q??=") then Ok [(CBytes [], Some UTF8)]
  else if bool_decide (v = lit "=?utf-8?b?a?=") then
    Raise (Exn HeaderParseError (lit "Base64 decoding error"))
  else if bool_decide (v = lit "=?x-unknown?q?abc?=") then
    Ok [(CBytes (lit "abc"), Some (lit "x-unknown"))]
  else Ok [(CStr v, None)].

Definition sample_codec_decode (encoding : pystr) (b : bytes)
  : result pystr :=
  if bool_decide (encoding = lit "undefined") then
    Raise (Exn UnicodeError (lit "undefined encoding"))
  else Raise (Exn LookupError (lit "unknown encoding: " ++ encoding)).

Definition sample_utf8_replace (b : bytes) : pystr :=
  (λ c, if bool_decide (c < 128) then c else 65533) <$> b.

Definition sample_read_message (files : list (path * result message))
    (p : path) : result message :=
  match list_find (λ f, f.1 = p) files with
  | Some (_, (_, r)) => r
  | None =>
      Raise (os_error FileNotFoundError
               "[Errno 2] No such file or directory" p)
  end.

Definition sample_library (files : list (path * result message))
  : Library := {|
  email_header_decode_header := sample_decode_header;
  codec_decode := sample_codec_decode;
  utf8_replace := sample_utf8_replace;
  unicode_lower := λ s, s;
  read_message := sample_read_message files
|}.

Definition text_part : message :=
  Message None None None (Some (lit "see attached")) [].

Definition attachment_part (filename : pystr) (payload : bytes) : message :=
  Message None (Some ATTACHMENT) (Some filename) (Some payload) [].

Definition multipart (subject : pystr) (parts : list message) : message :=
  Message (Some subject) None None None parts.

(** Subject Q4 Report, one attachment report.pdf. *)
Definition q4_message : message :=
  multipart (lit "Q4 Report")
    [text_part; attachment_part (lit "report.pdf") (lit "%PDF-1.4")].

(** Two attachments named a.txt. *)
Definition twin_message : message :=
  multipart (lit "twins")
    [attachment_part (lit "a.txt") (lit "first");
     attachment_part (lit "a.txt") (lit "second")].

(** A subject of dots and spaces. *)
Definition dots_message : message :=
  multipart (lit ". .. .") [attachment_part (lit "a.txt") (lit "x")].

(** An attachment whose file name is an encoded word with an empty text. *)
Definition empty_word_part : message :=
  attachment_part (lit "=?utf-8?q??=") (lit "x").

Definition q4_eml : path := [lit "in"; lit "q4.eml"].
Definition twin_eml : path := [lit "in"; lit "twins.eml"].
Definition dots_eml : path := [lit "in"; lit "msg001.eml"].
Definition huge_eml : path := [lit "in"; lit "huge.eml"].

(** [huge_eml] stands for a file whose reading raises [MemoryError()],
    whose [str] is empty. *)
Definition sample_files : list (path * result message) :=
  [(q4_eml, Ok q4_message); (twin_eml, Ok twin_message);
   (dots_eml, Ok dots_message); (huge_eml, Raise (Exn MemoryError []))].

Definition sample : Library := sample_library sample_files.

Definition OUT : path := [lit "out"].
Definition empty_fs : fs := FS ∅ ∅.

(** ** The file list ([add_files], lines 231-241; [clear_files], lines
    259-262)

    The list holds the paths as the dialogs give them; membership is the
    equality of the entries.  [add_files] returns the new list and the
    count it logs. *)

Fixpoint add_files_loop {A} `{EqDecision A} (files eml_files : list A)
    (added_count : nat) : list A * nat :=
  match files with
  | [] => (eml_files, added_count)
  | file_path :: rest =>
      if bool_decide (file_path ∈ eml_files)
      then add_files_loop rest eml_files added_count
      else add_files_loop rest (eml_files ++ [file_path]) (added_count + 1)
  end.

Definition add_files {A} `{EqDecision A} (files eml_files : list A)
  : list A * nat :=
  add_files_loop files eml_files 0.

Definition clear_files {A} (eml_files : list A) : list A := [].

(** All the paths the results of a batch hold, in order. *)
Definition batch_paths (results : list (path * (list path * option pystr)))
  : list path :=
  concat ((λ r, r.2.1) <$> results).

(** A library as [sample], whose splitter also knows the header value of
    one encoded word in the charset named undefined, as CPython 3.11
    splits it. *)
Definition undefined_decode_header (v : pystr)
  : result (list (chunk * option pystr)) :=
  if bool_decide (v = lit "ab =?undefined?q?abc?=") then
    Ok [(CBytes (lit "ab "), None); (CBytes (lit "abc"), Some (lit "undefined"))]
  else sample_decode_header v.

(** A message without attachments: a text part and an inline image. *)
Definition plain_message : message :=
  multipart (lit "hello")
    [text_part;
     Message None (Some (lit "inline")) (Some (lit "logo.png"))
       (Some (lit "PNG")) []].

(** A message without a subject header, with one attachment. *)
Definition nosubject_message : message :=
  Message None None None None [attachment_part (lit "a.txt") (lit "x")].

Definition plain_eml : path := [lit "in"; lit "plain.eml"].
Definition nosubject_eml : path := [lit "in"; lit "msg001.eml"].

Definition more_files : list (path * result message) :=
  [(plain_eml, Ok plain_message); (nosubject_eml, Ok nosubject_message);
   (q4_eml, Ok q4_message); (twin_eml, Ok twin_message)].

Definition undefined_library : Library := {|
  email_header_decode_header := undefined_decode_header;
  codec_decode := sample_codec_decode;
  utf8_replace := sample_utf8_replace;
  unicode_lower := λ s, s;
  read_message := sample_read_message more_files
|}.

(** * Properties *)

(** ** Strings *)

Lemma re_sub_length class repl s : length (re_sub class repl s) = length s.
Proof. unfold re_sub. apply length_fmap. Qed.

Lemma re_sub_lookup class repl s i c :
  s !! i = Some c →
  re_sub class repl s !! i
  = Some (if bool_decide (c ∈ class) then repl else c).
Proof. intros Hs. unfold re_sub. rewrite list_lookup_fmap, Hs. done. Qed.

Lemma re_sub_clean class repl s :
  repl ∉ class → Forall (λ c, c ∉ class) (re_sub class repl s).
Proof.
  intros Hr. unfold re_sub. apply Forall_fmap, Forall_forall.
  intros c _. unfold compose. case_bool_decide; done.
Qed.

Lemma rfind_from_none i c s : c ∉ s → rfind_from i c s = (-1)%Z.
Proof.
  revert i. induction s as [|x s IH]; intros i Hc; simpl; [done|].
  apply not_elem_of_cons in Hc as [Hx Hs].
  rewrite IH by done. rewrite bool_decide_eq_true_2 by done.
  rewrite bool_decide_eq_false_2; [done | congruence].
Qed.

Lemma lstrip_spec chars s :
  ∃ pre, s = pre ++ lstrip chars s ∧ Forall (λ c, c ∈ chars) pre ∧
         ∀ c, head (lstrip chars s) = Some c → c ∉ chars.
Proof.
  induction s as [|x s IH]; simpl.
  - exists []. split_and!; [done | constructor | intros ? [=]].
  - case_bool_decide as Hx.
    + destruct IH as (pre & E & F & Hh). exists (x :: pre).
      split_and!; [simpl; by rewrite <- E | by constructor | done].
    + exists []. split_and!; [done | constructor |].
      intros c [= <-]. done.
Qed.

Lemma rstrip_spec chars s :
  ∃ post, s = rstrip chars s ++ post ∧ Forall (λ c, c ∈ chars) post ∧
          ∀ c, last (rstrip chars s) = Some c → c ∉ chars.
Proof.
  destruct (lstrip_spec chars (reverse s)) as (pre & E & F & Hh).
  exists (reverse pre). unfold rstrip. split_and!.
  - rewrite <- reverse_app, <- E. by rewrite reverse_involutive.
  - by apply Forall_reverse.
  - intros c. rewrite last_reverse. apply Hh.
Qed.

Lemma strip_spec chars s : strips_to chars s (strip chars s).
Proof.
  destruct (lstrip_spec chars s) as (pre & E & F & Hh).
  destruct (rstrip_spec chars (lstrip chars s)) as (post & E' & F' & Hl).
  exists pre, post. unfold strip. split_and!; try done.
  - by rewrite <- E', <- E.
  - intros c Hc. apply Hh. rewrite E'.
    destruct (rstrip chars (lstrip chars s)); [done | exact Hc].
Qed.

Lemma strips_to_Forall (P : N → Prop) chars s t :
  strips_to chars s t → Forall P s → Forall P t.
Proof.
  intros (pre & post & -> & _) HP.
  apply Forall_app in HP as [_ HP]. by apply Forall_app in HP as [HP _].
Qed.

Lemma UNNAMED_clean : Forall (λ c, c ∉ illegal_chars) UNNAMED.
Proof.
  unfold UNNAMED, illegal_chars.
  repeat constructor; intros Hin;
    repeat (apply elem_of_cons in Hin as [Hin|Hin]; [done|]);
    by apply elem_of_nil in Hin.
Qed.

(** ** [sanitize_filename] *)

(** The function as a composition of its four steps. *)
Lemma sanitize_filename_steps filename :
  let stripped := strip [SPACE; DOT] (re_sub illegal_chars UNDERSCORE filename) in
  sanitize_filename filename
  = if bool_decide (take 200 stripped = []) then UNNAMED else take 200 stripped.
Proof.
  simpl. unfold sanitize_filename.
  set (t := strip _ _).
  destruct (decide (200 < length t)%nat) as [Hlen|Hlen].
  - by rewrite (bool_decide_eq_true_2 _ Hlen).
  - rewrite (bool_decide_eq_false_2 _ Hlen). by rewrite take_ge by lia.
Qed.

Lemma sanitize_filename_clean filename :
  Forall (λ c, c ∉ illegal_chars) (sanitize_filename filename).
Proof.
  rewrite sanitize_filename_steps. simpl. case_bool_decide.
  - apply UNNAMED_clean.
  - apply Forall_take. eapply strips_to_Forall; [apply strip_spec|].
    apply re_sub_clean. unfold UNDERSCORE, illegal_chars.
    intros Hin. repeat (apply elem_of_cons in Hin as [Hin|Hin]; [done|]).
    by apply elem_of_nil in Hin.
Qed.

Lemma sanitize_filename_nonempty filename : sanitize_filename filename ≠ [].
Proof.
  rewrite sanitize_filename_steps. simpl. case_bool_decide; done.
Qed.

Lemma sanitize_filename_length filename :
  (length (sanitize_filename filename) ≤ 200)%nat.
Proof.
  rewrite sanitize_filename_steps. simpl. case_bool_decide.
  - simpl. lia.
  - rewrite length_take. lia.
Qed.

(** The first character of a sanitized name is neither a space nor a dot. *)
Lemma sanitize_filename_head filename c :
  head (sanitize_filename filename) = Some c → c ∉ [SPACE; DOT].
Proof.
  rewrite sanitize_filename_steps. simpl. case_bool_decide as Ht.
  - intros [= <-]. unfold SPACE, DOT. intros Hin.
    repeat (apply elem_of_cons in Hin as [Hin|Hin]; [done|]).
    by apply elem_of_nil in Hin.
  - destruct (strip_spec [SPACE; DOT]
                (re_sub illegal_chars UNDERSCORE filename))
      as (pre & post & _ & _ & _ & Hh & _).
    intros Hc. apply Hh.
    destruct (strip _ _); [done | exact Hc].
Qed.

(** C1, as the code has it: every member of the character class is
    replaced by an underscore; leading and trailing characters that are a
    space (U+0020) or a dot are stripped, and no other whitespace is; the
    result is cut to its first 200 characters; an empty result is replaced
    by the placeholder 未命名.  Hence the result holds none of the nine
    characters, is not empty and has at most 200 characters. *)
Theorem sanitize_filename_rule (filename : pystr) :
  ∃ replaced stripped,
    length replaced = length filename ∧
    (∀ i c, filename !! i = Some c →
       replaced !! i
       = Some (if bool_decide (c ∈ illegal_chars) then UNDERSCORE else c)) ∧
    strips_to [SPACE; DOT] replaced stripped ∧
    sanitize_filename filename
    = (if bool_decide (take 200 stripped = []) then UNNAMED
       else take 200 stripped) ∧
    Forall (λ c, c ∉ illegal_chars) (sanitize_filename filename) ∧
    sanitize_filename filename ≠ [] ∧
    (length (sanitize_filename filename) ≤ 200)%nat.
Proof.
  exists (re_sub illegal_chars UNDERSCORE filename),
         (strip [SPACE; DOT] (re_sub illegal_chars UNDERSCORE filename)).
  split_and!.
  - apply re_sub_length.
  - intros i c. apply re_sub_lookup.
  - apply strip_spec.
  - apply sanitize_filename_steps.
  - apply sanitize_filename_clean.
  - apply sanitize_filename_nonempty.
  - apply sanitize_filename_length.
Qed.

(** C1 as stated fails on a name that starts with a tab: the tab is
    whitespace, and [strip] with the argument space-dot leaves it. *)
Lemma sanitize_filename_keeps_tab :
  ¬ sanitization_as_specified [9; 97].
Proof. intros [E _]. vm_compute in E. discriminate E. Qed.

(** ** [decode_header] *)

Section DecodeHeader.
Context `{Library}.

Lemma bytes_decode_utf8 b : bytes_decode UTF8 b = Ok (utf8_replace b).
Proof. unfold bytes_decode. by rewrite bool_decide_eq_true_2. Qed.

Lemma decode_part_handled pc :
  word_handled pc → decode_part pc = Ok (word_text pc).
Proof.
  unfold word_handled, decode_part, word_text.
  destruct pc as [[b|s] charset]; simpl; [|done].
  intros Hh. destruct (bytes_decode (charset_or_utf8 charset) b) as [s|e] eqn:E.
  - done.
  - rewrite (Hh b e eq_refl E). apply bytes_decode_utf8.
Qed.

Lemma decode_parts_handled decoded_parts decoded_str :
  Forall word_handled decoded_parts →
  decode_parts decoded_parts decoded_str
  = Ok (decoded_str ++ concat (word_text <$> decoded_parts)).
Proof.
  intros Hall. revert decoded_str.
  induction Hall as [|pc rest Hpc _ IH]; intros acc; simpl.
  - by rewrite app_nil_r.
  - rewrite (decode_part_handled pc Hpc), IH. by rewrite app_assoc.
Qed.

(** An exception the loop does not handle leaves the function. *)
Lemma decode_part_unhandled b charset e :
  bytes_decode (charset_or_utf8 charset) b = Raise e →
  is_lookup_or_decode_error e = false →
  ∀ v rest, email_header_decode_header v = Ok ((CBytes b, charset) :: rest) →
            decode_header (Some v) = Raise e.
Proof.
  intros Hd He v rest Hv. unfold decode_header. rewrite Hv. simpl.
  unfold decode_part. simpl. by rewrite Hd, He.
Qed.

(** C3, as the code has it: an absent value gives the empty string; when
    the word splitter returns its pairs and the decoding of each pair
    either returns or raises [LookupError] or [UnicodeDecodeError], the
    function returns the texts of the pairs concatenated in order with
    nothing between them, a pair of bytes being decoded with its charset
    and, when that raises, as UTF-8 with replacement.  An exception of the
    splitter, as [HeaderParseError], leaves the function. *)
Theorem decode_header_words (v : pystr)
    (decoded_parts : list (chunk * option pystr))
    (Hsplit : email_header_decode_header v = Ok decoded_parts)
    (Hhandled : Forall word_handled decoded_parts) :
  decode_header None = Ok [] ∧
  decode_header (Some v) = Ok (concat (word_text <$> decoded_parts)) ∧
  (∀ v' e, email_header_decode_header v' = Raise e →
           decode_header (Some v') = Raise e).
Proof.
  split_and!.
  - done.
  - unfold decode_header. rewrite Hsplit.
    by rewrite (decode_parts_handled _ [] Hhandled).
  - intros v' e Hv'. unfold decode_header. by rewrite Hv'.
Qed.

End DecodeHeader.

(** The header value of one encoded word in the unknown charset
    x-unknown decodes through the UTF-8 fallback. *)
Lemma decode_header_words_witness :
  @decode_header sample None = Ok [] ∧
  @decode_header sample (Some (lit "=?x-unknown?q?abc?=")) = Ok (lit "abc").
Proof.
  destruct (@decode_header_words sample (lit "=?x-unknown?q?abc?=")
              [(CBytes (lit "abc"), Some (lit "x-unknown"))])
    as (H1 & H2 & _).
  - reflexivity.
  - repeat constructor. intros b e Hb Hd. simpl in Hb.
    injection Hb as <-. vm_compute in Hd. injection Hd as <-. reflexivity.
  - split; [exact H1 | exact H2].
Defined.

(** C3 as stated fails on a header value the word splitter rejects: a
    base64 word of one character raises [HeaderParseError], which
    [decode_header] does not handle. *)
Lemma decode_header_raises_on_bad_base64 :
  ¬ @decode_header_never_raises sample (Some (lit "=?utf-8?b?a?=")).
Proof. intros [s E]. vm_compute in E. discriminate E. Qed.

(** ** The file system *)

Lemma path_exists_true s p : path_exists s p = true ↔ p ∈ existing s.
Proof.
  unfold path_exists, existing, is_file, read_file.
  rewrite bool_decide_eq_true, elem_of_union, elem_of_dom. done.
Qed.

Lemma path_exists_false s p :
  path_exists s p = false ↔ read_file s p = None ∧ p ∉ fs_dirs s.
Proof.
  unfold path_exists, is_file. rewrite bool_decide_eq_false.
  rewrite eq_None_not_Some. tauto.
Qed.

Lemma size_existing s : (size (existing s) ≤ fs_size s)%nat.
Proof.
  unfold existing, fs_size. rewrite size_union_alt, size_dom.
  assert (size (fs_dirs s ∖ dom (fs_files s)) ≤ size (fs_dirs s))%nat
    by (apply subseteq_size; set_solver).
  lia.
Qed.

Lemma fs_le_refl s : fs_le s s.
Proof. split; [auto | done]. Qed.

Lemma fs_le_trans s1 s2 s3 : fs_le s1 s2 → fs_le s2 s3 → fs_le s1 s3.
Proof. intros [F1 D1] [F2 D2]. split; [auto | set_solver]. Qed.

Lemma fs_le_exists s s' p :
  fs_le s s' → path_exists s p = true → path_exists s' p = true.
Proof.
  intros [F D]. unfold path_exists, is_file.
  rewrite !bool_decide_eq_true. intros [[data Hd]|Hp].
  - left. exists data. by apply F.
  - right. by apply D.
Qed.

Lemma fs_le_fresh s s' p :
  fs_le s s' → path_exists s' p = false → path_exists s p = false.
Proof.
  intros Hle Hp. destruct (path_exists s p) eqn:E; [|done].
  apply (fs_le_exists _ _ _ Hle) in E. congruence.
Qed.

Lemma mkdir_ok s p s' :
  mkdir s p = Ok s' →
  fs_files s' = fs_files s ∧
  fs_dirs s' = fs_dirs s ∪ list_to_set (ancestors_and_self p).
Proof.
  unfold mkdir. repeat case_bool_decide; intros [= <-]; done.
Qed.

Lemma mkdir_le s p s' : mkdir s p = Ok s' → fs_le s s'.
Proof.
  intros [Hf Hd]%mkdir_ok. split.
  - intros q data. unfold read_file. by rewrite Hf.
  - rewrite Hd. set_solver.
Qed.

Lemma mkdir_is_dir s p s' : mkdir s p = Ok s' → is_dir s' p = true.
Proof.
  intros [_ Hd]%mkdir_ok. unfold is_dir. apply bool_decide_eq_true.
  destruct (decide (p = [])) as [|Hne]; [by left | right].
  rewrite Hd. apply elem_of_union_r, elem_of_list_to_set.
  unfold ancestors_and_self. apply list_elem_of_fmap.
  exists (length p). split; [by rewrite firstn_all|].
  apply elem_of_seq. destruct p; simpl in *; [done | lia].
Qed.

(** Creating a directory does not make anything exist inside it. *)
Lemma mkdir_child s p s' name :
  mkdir s p = Ok s' →
  path_exists s' (joinpath p name) = path_exists s (joinpath p name).
Proof.
  intros [Hf Hd]%mkdir_ok. unfold path_exists, is_file, read_file.
  rewrite Hf, Hd. apply bool_decide_ext.
  assert (joinpath p name ∉ (list_to_set (ancestors_and_self p) : gset path)).
  { rewrite elem_of_list_to_set. unfold ancestors_and_self, joinpath.
    intros (n & E & _)%list_elem_of_fmap.
    apply (f_equal length) in E. rewrite length_app, length_take in E.
    simpl in E. lia. }
  set_solver.
Qed.

Lemma write_file_ok s p data s' :
  write_file s p data = Ok s' →
  fs_files s' = <[p := data]> (fs_files s) ∧ fs_dirs s' = fs_dirs s.
Proof.
  unfold write_file. case_bool_decide; [done|].
  destruct (is_dir s (removelast p)); intros [= <-]; done.
Qed.

Lemma write_file_read s p data s' :
  write_file s p data = Ok s' → read_file s' p = Some data.
Proof.
  intros [Hf _]%write_file_ok. unfold read_file.
  rewrite Hf. apply lookup_insert_eq.
Qed.

Lemma write_file_fresh_le s p data s' :
  path_exists s p = false → write_file s p data = Ok s' → fs_le s s'.
Proof.
  intros [Hp _]%path_exists_false [Hf Hd]%write_file_ok. split.
  - intros q d Hq. unfold read_file in *. rewrite Hf.
    rewrite lookup_insert_ne; [done | congruence].
  - by rewrite Hd.
Qed.

(** Writing below a directory to a path at which nothing exists works. *)
Lemma write_file_in_dir s dir name data :
  is_dir s dir = true → path_exists s (joinpath dir name) = false →
  write_file s (joinpath dir name) data
  = Ok (FS (<[joinpath dir name := data]> (fs_files s)) (fs_dirs s)).
Proof.
  intros Hd [_ Hp]%path_exists_false. unfold write_file.
  rewrite bool_decide_eq_false_2 by done.
  unfold joinpath. by rewrite removelast_last, Hd.
Qed.

(** ** The collision loop *)

Lemma digits_inj d d' : digits d = digits d' → d = d'.
Proof.
  revert d'. induction d; intros []; simpl; intros [=]; f_equal; auto.
Qed.

Lemma str_int_inj n n' : str_int n = str_int n' → n = n'.
Proof.
  intros E. by apply DecimalN.Unsigned.to_uint_inj, digits_inj.
Qed.

Lemma numbered_name_inj safe k k' :
  numbered_name safe k = numbered_name safe k' → k = k'.
Proof.
  unfold numbered_name. destruct (splitext safe) as [name ext].
  intros E. apply app_inv_head in E. simpl in E. injection E as E.
  apply app_inv_tail in E. by apply str_int_inj.
Qed.

Lemma resolve_collision_spec fuel s dir safe output_path counter p :
  resolve_collision fuel s dir safe output_path counter = Some p →
  path_exists s p = false ∧
  (p = output_path ∨
   ∃ k, counter ≤ k ∧ p = joinpath dir (numbered_name safe k)).
Proof.
  revert output_path counter.
  induction fuel as [|fuel IH]; intros op c; simpl; [done|].
  destruct (path_exists s op) eqn:E.
  - intros Hr. apply IH in Hr as [Hf [->|(k & Hk & ->)]];
      (split; [done | right]).
    + exists c. split; [lia | done].
    + exists k. split; [lia | done].
  - intros [= <-]. auto.
Qed.

Lemma resolve_collision_none fuel s dir safe output_path counter :
  resolve_collision fuel s dir safe output_path counter = None →
  ((0 < fuel)%nat → path_exists s output_path = true) ∧
  ∀ i : nat, (S i < fuel)%nat →
    path_exists s (joinpath dir (numbered_name safe (counter + N.of_nat i)))
    = true.
Proof.
  revert output_path counter.
  induction fuel as [|fuel IH]; intros op c; simpl.
  - intros _. split; intros; lia.
  - destruct (path_exists s op) eqn:E; [|done].
    intros [H0 Hi]%IH. split; [done|].
    intros [|i] Hlt.
    + rewrite N.add_0_r. apply H0. lia.
    + replace (c + N.of_nat (S i)) with (c + 1 + N.of_nat i) by lia.
      apply Hi. lia.
Qed.

(** The loop ends: the numbered names are pairwise distinct, so the file
    system cannot hold more of them than it has entries. *)
Lemma resolve_collision_total s dir safe output_path counter :
  is_Some (resolve_collision (S (S (fs_size s))) s dir safe output_path
             counter).
Proof.
  destruct (resolve_collision _ _ _ _ _ _) eqn:E; [eauto | exfalso].
  apply resolve_collision_none in E as [_ Hall].
  set (l := (λ i : nat,
               joinpath dir (numbered_name safe (counter + N.of_nat i)))
            <$> seq 0 (S (fs_size s))).
  assert (NoDup l) as Hnd.
  { apply NoDup_fmap_2_strong; [|apply NoDup_seq].
    intros i j _ _ Hij. apply app_inv_head in Hij. injection Hij as Hij.
    apply numbered_name_inj in Hij. lia. }
  assert ((list_to_set l : gset path) ⊆ existing s) as Hsub.
  { intros p Hp. apply elem_of_list_to_set in Hp.
    apply list_elem_of_fmap in Hp as (i & -> & Hi).
    apply path_exists_true, Hall. apply elem_of_seq in Hi. lia. }
  apply subseteq_size in Hsub. rewrite size_list_to_set in Hsub by done.
  unfold l in Hsub. rewrite length_fmap, length_seq in Hsub.
  pose proof (size_existing s). lia.
Qed.

(** A free first path is taken as it is; a taken one with a free first
    numbered name gives that name. *)
Lemma resolve_collision_free fuel s dir safe output_path counter :
  path_exists s output_path = false →
  resolve_collision (S fuel) s dir safe output_path counter
  = Some output_path.
Proof. intros Hp. simpl. by rewrite Hp. Qed.

Lemma resolve_collision_second fuel s dir safe output_path counter :
  path_exists s output_path = true →
  path_exists s (joinpath dir (numbered_name safe counter)) = false →
  resolve_collision (S (S fuel)) s dir safe output_path counter
  = Some (joinpath dir (numbered_name safe counter)).
Proof. intros Hp Hn. simpl. by rewrite Hp, Hn. Qed.

(** ** One attachment, one part, the walk *)

Section ExtractionFacts.
Context `{Library}.
Variable opts : options.

Lemma save_attachment_total base safe payload s found :
  is_Some (save_attachment opts base safe payload s found).
Proof.
  unfold save_attachment. destruct (mkdir _ _) as [s1|e]; [|eauto].
  destruct (resolve_collision_total s1 (target_dir opts base safe) safe
              (joinpath (target_dir opts base safe) safe) 1) as [p ->].
  destruct (write_file _ _ _); eauto.
Qed.

Lemma save_attachment_ok base safe payload s found s' found' :
  save_attachment opts base safe payload s found = Some (s', Ok found') →
  ∃ n, found' = found ++ [joinpath (target_dir opts base safe) n] ∧
       resolved_name safe n ∧
       path_exists s (joinpath (target_dir opts base safe) n) = false ∧
       read_file s' (joinpath (target_dir opts base safe) n) = Some payload ∧
       fs_le s s' ∧
       is_dir s' (target_dir opts base safe) = true.
Proof.
  unfold save_attachment.
  destruct (mkdir _ _) as [s1|e] eqn:Hmk; [|done].
  destruct (resolve_collision _ _ _ _ _ _) as [p|] eqn:Hres; [|done].
  destruct (write_file _ _ _) as [s2|e] eqn:Hwr; [|done].
  intros [= <- <-].
  apply resolve_collision_spec in Hres as [Hfree Hp].
  assert (∃ n, p = joinpath (target_dir opts base safe) n ∧
               resolved_name safe n) as (n & -> & Hn).
  { destruct Hp as [->|(k & Hk & ->)]; eexists; (split; [done|]).
    - by left.
    - right. by exists k. }
  exists n. split_and!; try done.
  - eapply fs_le_fresh; [by eapply mkdir_le | done].
  - by eapply write_file_read.
  - eapply fs_le_trans; [by eapply mkdir_le|].
    by eapply write_file_fresh_le.
  - apply mkdir_is_dir in Hmk. apply write_file_ok in Hwr as [_ Hd].
    unfold is_dir in *. by rewrite Hd.
Qed.

Lemma extract_part_total base part s found :
  is_Some (extract_part opts base part s found).
Proof.
  unfold extract_part. case_bool_decide; [|eauto].
  destruct (truthy (msg_filename part)); [|eauto].
  destruct (decode_header _); [|eauto].
  destruct (msg_payload part) as [[|b bs]|]; eauto.
  apply save_attachment_total.
Qed.

Lemma extract_part_not_attachment base part s found :
  msg_disposition part ≠ Some ATTACHMENT →
  extract_part opts base part s found = Some (s, Ok found).
Proof. intros Hd. unfold extract_part. by rewrite bool_decide_eq_false_2. Qed.

Lemma extract_part_no_filename base part s found :
  truthy (msg_filename part) = false →
  extract_part opts base part s found = Some (s, Ok found).
Proof.
  intros Hf. unfold extract_part. rewrite Hf. by case_bool_decide.
Qed.

Lemma extract_part_attachment base part s found filename :
  is_attachment part = true →
  decode_header (msg_filename part) = Ok filename →
  extract_part opts base part s found
  = save_attachment opts base (sanitize_filename filename)
      (default [] (msg_payload part)) s found.
Proof.
  unfold is_attachment. intros [[Hd Hf]%andb_prop Hp]%andb_prop Hdec.
  unfold extract_part. rewrite Hd, Hf, Hdec.
  destruct (msg_payload part) as [[|b bs]|]; done.
Qed.

Lemma extract_part_ok base part s found s' found' :
  extract_part opts base part s found = Some (s', Ok found') →
  (is_attachment part = false ∧ s' = s ∧ found' = found) ∨
  (is_attachment part = true ∧
   ∃ filename payload,
     decode_header (msg_filename part) = Ok filename ∧
     msg_payload part = Some payload ∧
     save_attachment opts base (sanitize_filename filename) payload s found
     = Some (s', Ok found')).
Proof.
  unfold extract_part, is_attachment.
  case_bool_decide as Hd; simpl; [|intros [= <- <-]; by left].
  destruct (truthy (msg_filename part)); simpl; [|intros [= <- <-]; by left].
  destruct (decode_header _) as [filename|e]; [|done].
  destruct (msg_payload part) as [[|b bs]|] eqn:Hp; simpl;
    try (intros [= <- <-]; by left).
  intros Hs. right. split; [done|]. by exists filename, (b :: bs).
Qed.

Lemma extract_parts_total base parts s found :
  is_Some (extract_parts opts base parts s found).
Proof.
  revert s found. induction parts as [|part rest IH]; intros s found; simpl.
  - eauto.
  - destruct (extract_part_total base part s found) as [[s1 [f1|e]] ->];
      eauto.
Qed.

Lemma extract_parts_cons base part rest s found s1 f1 :
  extract_part opts base part s found = Some (s1, Ok f1) →
  extract_parts opts base (part :: rest) s found
  = extract_parts opts base rest s1 f1.
Proof. intros E. simpl. by rewrite E. Qed.

Lemma save_attachment_raise base safe payload s found s' e :
  save_attachment opts base safe payload s found = Some (s', Raise e) →
  fs_le s s'.
Proof.
  unfold save_attachment.
  destruct (mkdir _ _) as [s1|e1] eqn:Hmk.
  - destruct (resolve_collision _ _ _ _ _ _) as [p|]; [|done].
    destruct (write_file _ _ _) as [s2|e2]; [done|].
    intros [= <- _]. by eapply mkdir_le.
  - intros [= <- _]. apply fs_le_refl.
Qed.

Lemma extract_part_raise base part s found s' e :
  extract_part opts base part s found = Some (s', Raise e) → fs_le s s'.
Proof.
  unfold extract_part. case_bool_decide; [|done].
  destruct (truthy (msg_filename part)); [|done].
  destruct (decode_header _) as [filename|e1].
  - destruct (msg_payload part) as [[|b bs]|]; try done.
    apply save_attachment_raise.
  - intros [= <- _]. apply fs_le_refl.
Qed.

(** The walk, whether it ends or is cut short by an exception: it has
    gone through a prefix of the parts and written one file per
    attachment of that prefix, in order; the paths were free when the
    walk began, are pairwise distinct, and hold the bodies of their parts
    in the file system the walk leaves; nothing that existed is lost.  A
    walk that ends has gone through all parts and returns the list it was
    given followed by the new paths. *)
Lemma extract_parts_progress base parts s found s' r :
  extract_parts opts base parts s found = Some (s', r) →
  ∃ new done_parts rest,
    parts = done_parts ++ rest ∧
    Forall2 (written_as opts base s') new
      (List.filter is_attachment done_parts) ∧
    (∀ p, p ∈ new → path_exists s p = false) ∧
    NoDup new ∧
    fs_le s s' ∧
    (∀ found', r = Ok found' → found' = found ++ new ∧ rest = []).
Proof.
  revert s found. induction parts as [|part parts IH]; intros s found; simpl.
  - intros [= <- <-]. exists [], [], []. split_and!.
    + done.
    + constructor.
    + intros p Hp. by apply elem_of_nil in Hp.
    + constructor.
    + apply fs_le_refl.
    + intros found' [= <-]. by rewrite List.app_nil_r.
  - destruct (extract_part opts base part s found)
      as [[s1 [f1|e]]|] eqn:E; [| |done].
    + intros (new & done_parts & rest & -> & Hw & Hfresh & Hnd & Hle & Hr)%IH.
      apply extract_part_ok in E
        as [(Ha & -> & ->)|(Ha & filename & payload & Hdec & Hpay & Hsave)].
      * exists new, (part :: done_parts), rest. simpl. rewrite Ha.
        split_and!; done.
      * apply save_attachment_ok in Hsave
          as (n & -> & Hn & Hp & Hread & Hle1 & _).
        exists (joinpath (target_dir opts base (sanitize_filename filename)) n
                :: new), (part :: done_parts), rest.
        simpl. rewrite Ha. split_and!.
        -- done.
        -- constructor; [|done]. exists filename, n. split_and!; try done.
           rewrite Hpay. by apply Hle.
        -- intros p [->|Hin]%elem_of_cons; [done|].
           eapply fs_le_fresh; [done | by apply Hfresh].
        -- constructor; [|done]. intros Hin. apply Hfresh in Hin.
           apply path_exists_false in Hin as [Hin _].
           unfold read_file in *. congruence.
        -- by eapply fs_le_trans.
        -- intros found' Hr'. destruct (Hr found' Hr') as [-> ->].
           by rewrite <- List.app_assoc.
    + intros [= <- <-]. exists [], [], (part :: parts). split_and!.
      * done.
      * constructor.
      * intros p Hp. by apply elem_of_nil in Hp.
      * constructor.
      * by eapply extract_part_raise.
      * done.
Qed.

(** The walk of a successful run. *)
Lemma extract_parts_inv base parts s found s' found' :
  extract_parts opts base parts s found = Some (s', Ok found') →
  ∃ new,
    found' = found ++ new ∧
    Forall2 (written_as opts base s') new (List.filter is_attachment parts) ∧
    (∀ p, p ∈ new → path_exists s p = false) ∧
    NoDup new ∧
    fs_le s s'.
Proof.
  intros (new & done_parts & rest & -> & Hw & Hfresh & Hnd & Hle & Hr)
    %extract_parts_progress.
  destruct (Hr found' eq_refl) as [-> ->].
  rewrite List.app_nil_r. by exists new.
Qed.

(** The steps of the try block of a run that returns its list. *)
Lemma extract_attachments_ok s eml_path out s' found :
  extract_attachments opts s eml_path out = Some (s', (found, None)) →
  ∃ msg subject s1,
    read_message eml_path = Ok msg ∧
    decode_header (Some (default [] (msg_subject msg))) = Ok subject ∧
    mkdir s (base_output_dir_of opts out
               (sanitize_filename (subject_of subject eml_path))) = Ok s1 ∧
    extract_parts opts
      (base_output_dir_of opts out
         (sanitize_filename (subject_of subject eml_path)))
      (walk msg) s1 [] = Some (s', Ok found).
Proof.
  unfold extract_attachments, extract_try.
  destruct (read_message eml_path) as [msg|e] eqn:Hread; [|done].
  destruct (decode_header _) as [subject|e] eqn:Hsubj; [|done].
  destruct (mkdir _ _) as [s1|e] eqn:Hmk; [|done].
  destruct (extract_parts _ _ _ _ _) as [[s2 [f|e]]|] eqn:Hparts; [|done|done].
  intros [= <- <-]. exists msg, subject, s1. split_and!; done.
Qed.

Lemma extract_attachments_total s eml_path out :
  is_Some (extract_attachments opts s eml_path out).
Proof.
  unfold extract_attachments, extract_try.
  destruct (read_message eml_path) as [msg|e]; [|eauto].
  destruct (decode_header _) as [subject|e]; [|eauto].
  destruct (mkdir _ _) as [s1|e]; [|eauto].
  destruct (extract_parts_total
              (base_output_dir_of opts out
                 (sanitize_filename (subject_of subject eml_path)))
              (walk msg) s1 []) as [[s2 [f|e]] ->]; eauto.
Qed.

(** A run that fails returns the empty list with the text of the
    exception. *)
Lemma extract_attachments_error s eml_path out s' found error :
  extract_attachments opts s eml_path out = Some (s', (found, Some error)) →
  found = [].
Proof.
  unfold extract_attachments.
  destruct (extract_try _ _ _ _) as [[s1 [f|e]]|]; [done| |done].
  by intros [= <- <- <-].
Qed.

End ExtractionFacts.

(** ** Skipped parts *)

Lemma extract_parts_skip `{Library} opts base part before after :
  (∀ s found, extract_part opts base part s found = Some (s, Ok found)) →
  ∀ s found,
    extract_parts opts base (before ++ part :: after) s found
    = extract_parts opts base (before ++ after) s found.
Proof.
  intros Hskip. induction before as [|x before IH]; intros s found; simpl.
  - by rewrite Hskip.
  - destruct (extract_part opts base x s found) as [[s1 [f1|e]]|]; auto.
Qed.

(** C2, as the code has it: an attachment part whose file name, as the
    parser returns it and before any header decoding, is absent or empty
    is skipped: the file system and the list of written paths stay as
    they are, no error is raised, and the walk goes on as if the part
    were not there.  The test comes before the decoding: a part with a
    non-empty file name that decodes to the empty string is not skipped
    but saved under the placeholder name 未命名. *)
Theorem attachment_without_filename_skipped `{Library} (opts : options)
    (base : path) (part : message) (before after : list message)
    (Hdisp : msg_disposition part = Some ATTACHMENT)
    (Hname : truthy (msg_filename part) = false) :
  (∀ s found, extract_part opts base part s found = Some (s, Ok found)) ∧
  (∀ s found,
     extract_parts opts base (before ++ part :: after) s found
     = extract_parts opts base (before ++ after) s found) ∧
  (∀ part' s found,
     is_attachment part' = true →
     decode_header (msg_filename part') = Ok [] →
     extract_part opts base part' s found
     = save_attachment opts base UNNAMED (default [] (msg_payload part'))
         s found).
Proof.
  assert (∀ s found, extract_part opts base part s found = Some (s, Ok found))
    as Hskip by (intros; by apply extract_part_no_filename).
  split_and!.
  - done.
  - by apply extract_parts_skip.
  - intros part' s found Ha Hdec.
    by rewrite (extract_part_attachment opts base part' s found [] Ha Hdec).
Qed.

(** An attachment part without a file name, between a text part and a
    named attachment. *)
Lemma attachment_without_filename_skipped_witness :
  @extract_part sample (Options true false) OUT
    (Message None (Some ATTACHMENT) None (Some (lit "x")) []) empty_fs []
  = Some (empty_fs, Ok []).
Proof.
  apply (@attachment_without_filename_skipped sample (Options true false)
           OUT (Message None (Some ATTACHMENT) None (Some (lit "x")) [])
           [text_part] [attachment_part (lit "a.txt") (lit "x")]);
    reflexivity.
Defined.

(** C2 as stated fails on an attachment whose non-empty file name is an
    encoded word with an empty text: the name decodes to the empty string,
    and the part is written, as 未命名. *)
Lemma empty_decoded_name_is_written :
  ¬ @skipped_when_decoded_empty sample (Options true false) OUT
      empty_word_part empty_fs [].
Proof.
  intros Hc. specialize (Hc eq_refl eq_refl).
  vm_compute in Hc. discriminate Hc.
Qed.

(** ** Names and directories of the written files *)

Lemma genericpath_splitext_app p sep altsep :
  (genericpath_splitext p sep altsep).1 ++ (genericpath_splitext p sep altsep).2
  = p.
Proof.
  unfold genericpath_splitext. case_bool_decide; simpl.
  - destruct (forallb _ _); simpl; [apply List.app_nil_r | apply take_drop].
  - apply List.app_nil_r.
Qed.

(** On a sanitized name, which holds neither separator, [ntpath] and
    [posixpath] split alike. *)
Lemma splitext_sanitized filename :
  nt_splitext (sanitize_filename filename)
  = splitext (sanitize_filename filename).
Proof.
  pose proof (sanitize_filename_clean filename) as Hc.
  rewrite Forall_forall in Hc.
  assert (SLASH ∉ sanitize_filename filename) as Hs.
  { intros Hin. apply (Hc _ Hin). by apply (bool_decide_unpack _). }
  assert (92 ∉ sanitize_filename filename) as Hb.
  { intros Hin. apply (Hc _ Hin). by apply (bool_decide_unpack _). }
  unfold nt_splitext, splitext, genericpath_splitext, rfind.
  by rewrite !(rfind_from_none _ SLASH), !(rfind_from_none _ 92).
Qed.

Lemma numbered_name_length safe k :
  (length safe < length (numbered_name safe k))%nat.
Proof.
  unfold numbered_name. pose proof (genericpath_splitext_app safe SLASH None) as E.
  fold (splitext safe) in E. destruct (splitext safe) as [name ext].
  simpl in E. rewrite <- E. rewrite !length_app. simpl. lia.
Qed.

Lemma numbered_name_ne safe k : numbered_name safe k ≠ safe.
Proof.
  intros E. pose proof (numbered_name_length safe k) as Hl.
  rewrite E in Hl. lia.
Qed.

Lemma joinpath_ne_self dir name : joinpath dir name ≠ dir.
Proof.
  intros E. apply (f_equal length) in E. unfold joinpath in E.
  rewrite length_app in E. simpl in E. lia.
Qed.

Lemma joinpath_not_ancestor dir name q :
  q ∈ ancestors dir → joinpath dir name ≠ q.
Proof.
  unfold ancestors. intros (n & -> & _)%list_elem_of_fmap E.
  apply (f_equal length) in E. unfold joinpath in E.
  rewrite length_app, length_take in E. simpl in E. lia.
Qed.

(** A directory that could be created can be created again after a file
    was written into it. *)
Lemma mkdir_after_write s dir s1 name data :
  mkdir s dir = Ok s1 →
  mkdir (FS (<[joinpath dir name := data]> (fs_files s1)) (fs_dirs s1)) dir
  = Ok (FS (<[joinpath dir name := data]> (fs_files s1))
           (fs_dirs s1 ∪ list_to_set (ancestors_and_self dir))).
Proof.
  intros Hmk. pose proof (mkdir_ok _ _ _ Hmk) as [Hf _].
  unfold mkdir in *.
  case_bool_decide as Hfile; [done|].
  case_bool_decide as Hanc; [done|]. clear Hmk.
  rewrite bool_decide_eq_false_2.
  - rewrite bool_decide_eq_false_2; [done|].
    intros (q & Hq & Hfq)%Exists_exists. apply Hanc, Exists_exists.
    exists q. split; [done|]. unfold is_file, read_file in *. simpl in Hfq.
    rewrite Hf in Hfq. rewrite lookup_insert_ne in Hfq; [done|].
    by apply joinpath_not_ancestor.
  - unfold is_file, read_file in *. simpl. rewrite Hf.
    rewrite lookup_insert_ne; [done | apply joinpath_ne_self].
Qed.

Section Saving.
Context `{Library}.
Variable opts : options.

(** The first file of a name goes to the name itself. *)
Lemma save_attachment_first base safe payload s s1 found :
  mkdir s (target_dir opts base safe) = Ok s1 →
  path_exists s (joinpath (target_dir opts base safe) safe) = false →
  save_attachment opts base safe payload s found
  = Some (FS (<[joinpath (target_dir opts base safe) safe := payload]>
                (fs_files s1)) (fs_dirs s1),
          Ok (found ++ [joinpath (target_dir opts base safe) safe])).
Proof.
  intros Hmk Hfree. unfold save_attachment. rewrite Hmk.
  rewrite <- (mkdir_child _ _ _ safe Hmk) in Hfree.
  rewrite resolve_collision_free by done.
  rewrite write_file_in_dir; [done | by eapply mkdir_is_dir | done].
Qed.

(** The second file of a name goes to the name numbered 1. *)
Lemma save_attachment_second base safe payload s s1 found :
  mkdir s (target_dir opts base safe) = Ok s1 →
  path_exists s (joinpath (target_dir opts base safe) safe) = true →
  path_exists s (joinpath (target_dir opts base safe) (numbered_name safe 1))
  = false →
  save_attachment opts base safe payload s found
  = Some (FS (<[joinpath (target_dir opts base safe) (numbered_name safe 1)
                := payload]> (fs_files s1)) (fs_dirs s1),
          Ok (found ++ [joinpath (target_dir opts base safe)
                          (numbered_name safe 1)])).
Proof.
  intros Hmk Htaken Hfree. unfold save_attachment. rewrite Hmk.
  rewrite <- (mkdir_child _ _ _ safe Hmk) in Htaken.
  rewrite <- (mkdir_child _ _ _ (numbered_name safe 1) Hmk) in Hfree.
  rewrite resolve_collision_second by done.
  rewrite write_file_in_dir; [done | by eapply mkdir_is_dir | done].
Qed.

(** Two attachments of one sanitized name, saved one after the other into
    a directory that holds neither the name nor the name numbered 1. *)
Lemma save_attachment_twice base safe payload1 payload2 s s1 found :
  mkdir s (target_dir opts base safe) = Ok s1 →
  path_exists s (joinpath (target_dir opts base safe) safe) = false →
  path_exists s (joinpath (target_dir opts base safe) (numbered_name safe 1))
  = false →
  ∃ s2 s3,
    save_attachment opts base safe payload1 s found
    = Some (s2, Ok (found ++ [joinpath (target_dir opts base safe) safe])) ∧
    save_attachment opts base safe payload2 s2
      (found ++ [joinpath (target_dir opts base safe) safe])
    = Some (s3, Ok (found ++ [joinpath (target_dir opts base safe) safe;
                              joinpath (target_dir opts base safe)
                                (numbered_name safe 1)])).
Proof.
  intros Hmk Hfree Hfree1.
  set (dir := target_dir opts base safe) in *.
  eexists _, _. split.
  - by apply save_attachment_first.
  - rewrite (save_attachment_second base safe payload2 _ _ _
               (mkdir_after_write s dir s1 safe payload1 Hmk)).
    + simpl. by rewrite <- List.app_assoc.
    + apply path_exists_true. unfold existing. simpl.
      apply elem_of_union_l, elem_of_dom. rewrite lookup_insert_eq. eauto.
    + rewrite <- (mkdir_child _ _ _ (numbered_name safe 1) Hmk) in Hfree1.
      apply path_exists_false in Hfree1 as [Hf Hd].
      apply path_exists_false. split; [|done].
      unfold read_file in *. simpl. rewrite lookup_insert_ne; [done|].
      intros E. apply app_inv_head in E. injection E as E.
      by apply (numbered_name_ne safe 1).
Qed.

End Saving.

(** ** Distinct paths *)

(** C4: the paths a run returns are pairwise distinct; and two
    attachments whose names sanitize to the same name, saved one after
    the other into a target directory that holds neither that name nor
    the name numbered 1, are written to the name and to the name with _1
    inserted before the extension. *)
Theorem written_paths_distinct `{Library} (opts : options) :
  (∀ s eml_path out s' found,
     extract_attachments opts s eml_path out = Some (s', (found, None)) →
     NoDup found) ∧
  (∀ base part1 part2 filename1 filename2 s s1 found,
     is_attachment part1 = true → is_attachment part2 = true →
     decode_header (msg_filename part1) = Ok filename1 →
     decode_header (msg_filename part2) = Ok filename2 →
     sanitize_filename filename2 = sanitize_filename filename1 →
     mkdir s (target_dir opts base (sanitize_filename filename1)) = Ok s1 →
     path_exists s
       (joinpath (target_dir opts base (sanitize_filename filename1))
          (sanitize_filename filename1)) = false →
     path_exists s
       (joinpath (target_dir opts base (sanitize_filename filename1))
          (numbered_name (sanitize_filename filename1) 1)) = false →
     (∃ s2,
        extract_parts opts base [part1; part2] s found
        = Some (s2,
                Ok (found ++
                    [joinpath
                       (target_dir opts base (sanitize_filename filename1))
                       (sanitize_filename filename1);
                     joinpath
                       (target_dir opts base (sanitize_filename filename1))
                       (numbered_name (sanitize_filename filename1) 1)]))) ∧
     numbered_name (sanitize_filename filename1) 1
     = (splitext (sanitize_filename filename1)).1 ++ lit "_1"
       ++ (splitext (sanitize_filename filename1)).2 ∧
     numbered_name (sanitize_filename filename1) 1
     ≠ sanitize_filename filename1).
Proof.
  split.
  - intros s eml_path out s' found Hrun.
    apply extract_attachments_ok in Hrun as (msg & subject & s1 & _ & _ & _ & Hp).
    apply extract_parts_inv in Hp as (new & -> & _ & _ & Hnd & _).
    done.
  - intros base part1 part2 filename1 filename2 s s1 found
      Ha1 Ha2 Hd1 Hd2 Hsame Hmk Hfree Hfree1.
    split_and!.
    + destruct (save_attachment_twice opts base (sanitize_filename filename1)
                  (default [] (msg_payload part1))
                  (default [] (msg_payload part2)) s s1 found Hmk Hfree Hfree1)
        as (s2 & s3 & Hs1 & Hs2).
      exists s3. simpl.
      rewrite (extract_part_attachment opts base part1 s found filename1 Ha1 Hd1).
      rewrite Hs1.
      rewrite (extract_part_attachment opts base part2 s2 _ filename2 Ha2 Hd2).
      rewrite Hsame. by rewrite Hs2.
    + unfold numbered_name. by destruct (splitext _).
    + apply numbered_name_ne.
Qed.

(** The run on the message with two attachments named a.txt. *)
Lemma written_paths_distinct_witness :
  ∃ s',
    @extract_attachments sample (Options true false) empty_fs twin_eml OUT
    = Some (s', ([[lit "out"; lit "twins"; lit "a.txt"];
                  [lit "out"; lit "twins"; lit "a_1.txt"]], None)) ∧
    NoDup [[lit "out"; lit "twins"; lit "a.txt"];
           [lit "out"; lit "twins"; lit "a_1.txt"]].
Proof.
  assert (∃ s',
    @extract_attachments sample (Options true false) empty_fs twin_eml OUT
    = Some (s', ([[lit "out"; lit "twins"; lit "a.txt"];
                  [lit "out"; lit "twins"; lit "a_1.txt"]], None)))
    as [s' Hrun].
  { eexists. vm_compute. reflexivity. }
  exists s'. split; [exact Hrun|].
  exact (proj1 (@written_paths_distinct sample (Options true false))
           _ _ _ _ _ Hrun).
Defined.

(** ** What a run leaves in the file system *)

Section Runs.
Context `{Library}.
Variable opts : options.

Lemma extract_attachments_progress s eml_path out s' found error msg :
  read_message eml_path = Ok msg →
  extract_attachments opts s eml_path out = Some (s', (found, error)) →
  ∃ subject written done_parts rest,
    (error = None →
     decode_header (Some (default [] (msg_subject msg))) = Ok subject) ∧
    walk msg = done_parts ++ rest ∧
    Forall2
      (written_as opts
         (base_output_dir_of opts out
            (sanitize_filename (subject_of subject eml_path))) s')
      written (List.filter is_attachment done_parts) ∧
    (∀ p, p ∈ written → path_exists s p = false) ∧
    NoDup written ∧
    fs_le s s' ∧
    (error = None → found = written ∧ rest = []).
Proof.
  intros Hread. unfold extract_attachments, extract_try. rewrite Hread.
  destruct (decode_header _) as [subject|e] eqn:Hsubj.
  - destruct (mkdir _ _) as [s1|e] eqn:Hmk.
    + destruct (extract_parts _ _ _ _ _) as [[s2 r]|] eqn:Hparts; [|done].
      apply extract_parts_progress in Hparts
        as (new & done_parts & rest & Hwalk & Hw & Hfresh & Hnd & Hle & Hr).
      intros Hres. exists subject, new, done_parts, rest.
      assert (s2 = s') as -> by (destruct r; by injection Hres).
      split_and!; try done.
      * intros p Hp. eapply fs_le_fresh; [by eapply mkdir_le | by apply Hfresh].
      * eapply fs_le_trans; [by eapply mkdir_le | done].
      * intros ->. destruct r as [f|e]; [|done].
        injection Hres as <-. by destruct (Hr f eq_refl) as [-> ->].
    + intros [= <- <- <-]. exists [], [], [], (walk msg).
      split_and!;
        first [ done | by constructor | apply fs_le_refl
              | intros p Hp; by apply elem_of_nil in Hp ].
  - intros [= <- <- <-]. exists [], [], [], (walk msg).
    split_and!;
      first [ done | by constructor | apply fs_le_refl
            | intros p Hp; by apply elem_of_nil in Hp ].
Qed.

End Runs.

Lemma mkdir_succeeds s p :
  ¬ is_file s p → Forall (λ q, ¬ is_file s q) (ancestors p) →
  mkdir s p
  = Ok (FS (fs_files s) (fs_dirs s ∪ list_to_set (ancestors_and_self p))).
Proof.
  intros Hp Hanc. unfold mkdir.
  rewrite bool_decide_eq_false_2 by done.
  rewrite bool_decide_eq_false_2; [done|].
  intros (q & Hq & Hfq)%Exists_exists.
  rewrite Forall_forall in Hanc. by apply (Hanc q).
Qed.

(** Creating a directory changes nothing at a longer path. *)
Lemma mkdir_longer s dir s' q :
  mkdir s dir = Ok s' → (length dir < length q)%nat →
  path_exists s' q = path_exists s q.
Proof.
  intros [Hf Hd]%mkdir_ok Hlen. unfold path_exists, is_file, read_file.
  rewrite Hf, Hd. apply bool_decide_ext.
  assert (q ∉ (list_to_set (ancestors_and_self dir) : gset path)).
  { rewrite elem_of_list_to_set. unfold ancestors_and_self.
    intros (n & -> & _)%list_elem_of_fmap.
    rewrite length_take in Hlen. lia. }
  set_solver.
Qed.

Section Scenarios.
Context `{Library}.
Variable opts : options.

Lemma extract_parts_no_attachment base parts rest s found :
  Forall (λ part, msg_disposition part ≠ Some ATTACHMENT) parts →
  extract_parts opts base (parts ++ rest) s found
  = extract_parts opts base rest s found.
Proof.
  induction 1 as [|part parts Hpart _ IH]; simpl; [done|].
  by rewrite extract_part_not_attachment.
Qed.

(** A message with one attachment, and otherwise parts that are no
    attachments: the walk is the saving of that attachment. *)
Lemma extract_parts_single base before att after filename s :
  Forall (λ part, msg_disposition part ≠ Some ATTACHMENT) before →
  Forall (λ part, msg_disposition part ≠ Some ATTACHMENT) after →
  is_attachment att = true →
  decode_header (msg_filename att) = Ok filename →
  extract_parts opts base (before ++ att :: after) s []
  = match save_attachment opts base (sanitize_filename filename)
            (default [] (msg_payload att)) s [] with
    | Some (s', Ok found) => Some (s', Ok found)
    | r => r
    end.
Proof.
  intros Hb Ha Hatt Hdec. rewrite extract_parts_no_attachment by done.
  simpl. rewrite (extract_part_attachment opts base att s [] filename Hatt Hdec).
  destruct (save_attachment _ _ _ _ _ _) as [[s' [found|e]]|]; try done.
  rewrite <- (List.app_nil_r after).
  by rewrite extract_parts_no_attachment.
Qed.

End Scenarios.

(** ** Round trip *)

(** C8: every file a run has written holds, in the file system the run
    leaves, the decoded body of its part, byte for byte; this also holds
    for the files written before an exception cut the run short.  The
    files are written at paths where nothing existed, and every file that
    existed keeps its content. *)
Theorem payload_round_trip `{Library} (opts : options) (s s' : fs)
    (eml_path out : path) (found : list path) (error : option pystr)
    (msg : message)
    (Hread : read_message eml_path = Ok msg)
    (Hrun : extract_attachments opts s eml_path out
            = Some (s', (found, error))) :
  ∃ written done_parts rest,
    walk msg = done_parts ++ rest ∧
    Forall2 (λ p part, read_file s' p = msg_payload part)
      written (List.filter is_attachment done_parts) ∧
    (∀ p, p ∈ written → path_exists s p = false) ∧
    (∀ p data, read_file s p = Some data → read_file s' p = Some data) ∧
    (error = None → found = written ∧ rest = []).
Proof.
  destruct (extract_attachments_progress opts _ _ _ _ _ _ _ Hread Hrun)
    as (subject & written & done_parts & rest
        & _ & Hwalk & Hw & Hfresh & _ & [Hle _] & Hfin).
  exists written, done_parts, rest. split_and!; try done.
  eapply Forall2_impl; [done|].
  by intros p part (filename & n & _ & _ & _ & Hr).
Qed.

(** The run on the message with the attachment report.pdf. *)
Lemma payload_round_trip_witness :
  ∃ s',
    @extract_attachments sample (Options false true) empty_fs q4_eml OUT
    = Some (s', ([[lit "out"; lit "pdf"; lit "report.pdf"]], None)) ∧
    read_file s' [lit "out"; lit "pdf"; lit "report.pdf"]
    = Some (lit "%PDF-1.4").
Proof.
  assert (∃ s',
    @extract_attachments sample (Options false true) empty_fs q4_eml OUT
    = Some (s', ([[lit "out"; lit "pdf"; lit "report.pdf"]], None)))
    as [s' Hrun].
  { eexists. vm_compute. reflexivity. }
  exists s'. split; [exact Hrun|].
  destruct (@payload_round_trip sample (Options false true) empty_fs s'
              q4_eml OUT _ None q4_message eq_refl Hrun)
    as (written & done_parts & rest & Hwalk & Hw & _ & _ & Hfin).
  destruct (Hfin eq_refl) as [<- ->].
  rewrite List.app_nil_r in Hwalk. rewrite <- Hwalk in Hw.
  apply Forall2_cons_1 in Hw as [Hr _]. exact Hr.
Defined.

(** ** Extensions *)

Lemma rfind_from_last i c s1 s2 :
  (0 ≤ i)%Z → c ∉ s2 →
  rfind_from i c (s1 ++ c :: s2) = (i + Z.of_nat (length s1))%Z.
Proof.
  revert i. induction s1 as [|x s1 IH]; intros i Hi Hc; simpl.
  - rewrite rfind_from_none by done.
    rewrite !bool_decide_eq_true_2 by done. lia.
  - rewrite IH by (done || lia).
    rewrite bool_decide_eq_false_2 by lia. lia.
Qed.

(** A name without a dot has no suffix. *)
Lemma suffix_no_dot name : DOT ∉ name → suffix name = [].
Proof.
  intros Hd. unfold suffix, rfind. rewrite rfind_from_none by done.
  rewrite bool_decide_eq_false_2; [done | lia].
Qed.

(** The suffix of a name with an extension: the last dot and what
    follows it. *)
Lemma suffix_extension name ext :
  name ≠ [] → ext ≠ [] → DOT ∉ ext →
  suffix (name ++ DOT :: ext) = DOT :: ext.
Proof.
  intros Hn He Hd. unfold suffix, rfind.
  rewrite rfind_from_last by (done || lia).
  rewrite length_app. simpl.
  rewrite bool_decide_eq_true_2.
  - replace (Z.to_nat (0 + Z.of_nat (length name))) with (length name) by lia.
    by rewrite drop_app_length.
  - destruct name; [done|]. destruct ext; [done|]. simpl. lia.
Qed.

Lemma ascii_lower_dot c : ascii_lower c = DOT → c = DOT.
Proof.
  unfold ascii_lower, DOT. case_bool_decide; [lia | done].
Qed.

Section Labels.
Context `{Library}.

Lemma type_label_no_dot safe : DOT ∉ safe → type_label safe = OTHER.
Proof. intros Hd. unfold type_label. by rewrite suffix_no_dot. Qed.

Lemma type_label_extension name ext :
  name ≠ [] → ext ≠ [] → DOT ∉ ext → forallb is_ascii ext = true →
  type_label (name ++ DOT :: ext) = ascii_lower <$> ext.
Proof.
  intros Hn He Hd Ha. unfold type_label.
  rewrite suffix_extension by done. unfold str_lower.
  change (forallb is_ascii (DOT :: ext)) with (forallb is_ascii ext).
  rewrite Ha. destruct ext as [|c ext]; [done|].
  apply not_elem_of_cons in Hd as [Hc _].
  change (ascii_lower <$> DOT :: c :: ext)
    with (DOT :: ascii_lower c :: (ascii_lower <$> ext)).
  assert (ascii_lower c ≠ DOT) as Hl
    by (intros E; apply ascii_lower_dot in E; congruence).
  simpl lstrip.
  rewrite (bool_decide_eq_false_2 (ascii_lower c ∈ [DOT]))
    by (rewrite list_elem_of_singleton; done).
  by rewrite bool_decide_eq_false_2.
Qed.

End Labels.

(** ** Classification by type *)

(** The scenario of the specification, on any file system in which
    nothing exists at the destination and neither directory on the way
    is a regular file. *)
Lemma q4_scenario `{Library} s eml_path msg before att after :
  read_message eml_path = Ok msg →
  decode_header (Some (default [] (msg_subject msg))) = Ok (lit "Q4 Report") →
  walk msg = before ++ att :: after →
  Forall (λ part, msg_disposition part ≠ Some ATTACHMENT) before →
  Forall (λ part, msg_disposition part ≠ Some ATTACHMENT) after →
  is_attachment att = true →
  decode_header (msg_filename att) = Ok (lit "report.pdf") →
  ¬ is_file s OUT → ¬ is_file s (joinpath OUT (lit "pdf")) →
  path_exists s [lit "out"; lit "pdf"; lit "report.pdf"] = false →
  ∃ s',
    extract_attachments (Options false true) s eml_path OUT
    = Some (s', ([[lit "out"; lit "pdf"; lit "report.pdf"]], None)).
Proof.
  intros Hread Hsubj Hwalk Hb Ha Hatt Hdec Hout Hpdf Hfree.
  assert (mkdir s OUT
          = Ok (FS (fs_files s)
                  (fs_dirs s ∪ list_to_set (ancestors_and_self OUT))))
    as Hmk1 by (apply mkdir_succeeds; [done | constructor]).
  set (s1 := FS (fs_files s) _) in Hmk1.
  assert (mkdir s1 (joinpath OUT (lit "pdf"))
          = Ok (FS (fs_files s1)
                  (fs_dirs s1 ∪
                   list_to_set (ancestors_and_self (joinpath OUT (lit "pdf"))))))
    as Hmk2.
  { apply mkdir_succeeds; [exact Hpdf|]. constructor; [exact Hout | constructor]. }
  assert (path_exists s1 [lit "out"; lit "pdf"; lit "report.pdf"] = false)
    as Hfree1.
  { rewrite (mkdir_longer _ _ _ _ Hmk1); [done | simpl; lia]. }
  unfold extract_attachments, extract_try. rewrite Hread, Hsubj.
  change (base_output_dir_of (Options false true) OUT _) with OUT.
  rewrite Hmk1, Hwalk.
  rewrite (extract_parts_single _ _ _ _ _ (lit "report.pdf")) by done.
  erewrite (save_attachment_first (Options false true) OUT
              (sanitize_filename (lit "report.pdf")));
    [eexists; reflexivity | exact Hmk2 | exact Hfree1].
Qed.

(** C7: with classification on, the target directory is the base
    directory joined with the type label, and it is the base directory
    otherwise; the label of a name with an ASCII extension is the
    extension in lower case without its dot, and 其他 for a name without
    a dot; every path a run returns lies in the target directory of its
    attachment; and the message with subject Q4 Report and the single
    attachment report.pdf, extracted without subject folder and with
    classification into /out, is written to /out/pdf/report.pdf when
    nothing is in the way. *)
Theorem classified_by_extension `{Library} (opts : options) (base : path) :
  (∀ safe, classify_by_type opts = true →
     target_dir opts base safe = joinpath base (type_label safe)) ∧
  (∀ safe, classify_by_type opts = false → target_dir opts base safe = base) ∧
  (∀ name ext,
     name ≠ [] → ext ≠ [] → DOT ∉ ext → forallb is_ascii ext = true →
     type_label (name ++ DOT :: ext) = ascii_lower <$> ext) ∧
  (∀ safe, DOT ∉ safe → type_label safe = OTHER) ∧
  (∀ s s' eml_path out found msg,
     read_message eml_path = Ok msg →
     extract_attachments opts s eml_path out = Some (s', (found, None)) →
     ∃ subject,
       decode_header (Some (default [] (msg_subject msg))) = Ok subject ∧
       Forall2
         (λ p part,
            ∃ filename n,
              decode_header (msg_filename part) = Ok filename ∧
              resolved_name (sanitize_filename filename) n ∧
              p = joinpath
                    (target_dir opts
                       (base_output_dir_of opts out
                          (sanitize_filename (subject_of subject eml_path)))
                       (sanitize_filename filename)) n)
         found (List.filter is_attachment (walk msg))) ∧
  (∀ s eml_path msg before att after,
     read_message eml_path = Ok msg →
     decode_header (Some (default [] (msg_subject msg)))
     = Ok (lit "Q4 Report") →
     walk msg = before ++ att :: after →
     Forall (λ part, msg_disposition part ≠ Some ATTACHMENT) before →
     Forall (λ part, msg_disposition part ≠ Some ATTACHMENT) after →
     is_attachment att = true →
     decode_header (msg_filename att) = Ok (lit "report.pdf") →
     ¬ is_file s OUT → ¬ is_file s (joinpath OUT (lit "pdf")) →
     path_exists s [lit "out"; lit "pdf"; lit "report.pdf"] = false →
     ∃ s',
       extract_attachments (Options false true) s eml_path OUT
       = Some (s', ([[lit "out"; lit "pdf"; lit "report.pdf"]], None)) ∧
       path_str <$> [[lit "out"; lit "pdf"; lit "report.pdf"]]
       = [lit "/out/pdf/report.pdf"]).
Proof.
  split_and!.
  - intros safe Hc. unfold target_dir. by rewrite Hc.
  - intros safe Hc. unfold target_dir. by rewrite Hc.
  - apply type_label_extension.
  - apply type_label_no_dot.
  - intros s s' eml_path out found msg Hread Hrun.
    destruct (extract_attachments_progress opts _ _ _ _ _ _ _ Hread Hrun)
      as (subject & written & done_parts & rest
          & Hsubj & Hwalk & Hw & _ & _ & _ & Hfin).
    destruct (Hfin eq_refl) as [<- ->]. rewrite List.app_nil_r in Hwalk.
    exists subject. split; [by apply Hsubj|]. rewrite Hwalk.
    eapply Forall2_impl; [done|].
    intros p part (filename & n & Hd & Hn & Hp & _). by exists filename, n.
  - intros s eml_path msg before att after
      Hread Hsubj Hwalk Hb Ha Hatt Hdec Hout Hpdf Hfree.
    destruct (q4_scenario s eml_path msg before att after)
      as [s' Hrun]; try done.
    by exists s'.
Qed.

(** The scenario on the sample message and the empty file system. *)
Lemma classified_by_extension_witness :
  ∃ s',
    @extract_attachments sample (Options false true) empty_fs q4_eml OUT
    = Some (s', ([[lit "out"; lit "pdf"; lit "report.pdf"]], None)) ∧
    path_str <$> [[lit "out"; lit "pdf"; lit "report.pdf"]]
    = [lit "/out/pdf/report.pdf"].
Proof.
  apply (proj2 (proj2 (proj2 (proj2 (proj2
           (@classified_by_extension sample (Options false true) OUT)))))
           empty_fs q4_eml q4_message [q4_message; text_part]
           (attachment_part (lit "report.pdf") (lit "%PDF-1.4")) []).
  - reflexivity.
  - reflexivity.
  - reflexivity.
  - repeat constructor; intros E; vm_compute in E; discriminate E.
  - constructor.
  - reflexivity.
  - reflexivity.
  - intros [data E]. vm_compute in E. discriminate E.
  - intros [data E]. vm_compute in E. discriminate E.
  - reflexivity.
Defined.

(** ** The label comes from the sanitized name *)

Lemma lstrip_id chars s :
  (∀ c, head s = Some c → c ∉ chars) → lstrip chars s = s.
Proof.
  destruct s as [|x s]; simpl; [done|]. intros Hh.
  by rewrite bool_decide_eq_false_2 by (by apply Hh).
Qed.

Lemma strip_id chars s :
  (∀ c, head s = Some c → c ∉ chars) →
  (∀ c, last s = Some c → c ∉ chars) →
  strip chars s = s.
Proof.
  intros Hh Hl. unfold strip, rstrip. rewrite (lstrip_id chars s Hh).
  rewrite lstrip_id; [apply reverse_involutive|].
  intros c. rewrite head_reverse. apply Hl.
Qed.

Lemma re_sub_app class repl s1 s2 :
  re_sub class repl (s1 ++ s2) = re_sub class repl s1 ++ re_sub class repl s2.
Proof. unfold re_sub. apply fmap_app. Qed.

Lemma re_sub_not_in class repl c s :
  c ≠ repl → c ∉ s → c ∉ re_sub class repl s.
Proof.
  intros Hr Hs. unfold re_sub. intros (x & E & Hx)%list_elem_of_fmap.
  destruct (bool_decide (x ∈ class)); congruence.
Qed.

Lemma re_sub_last class repl s c :
  last (re_sub class repl s) = Some c →
  ∃ z, last s = Some z ∧ c = if bool_decide (z ∈ class) then repl else z.
Proof.
  unfold re_sub. rewrite fmap_last.
  destruct (last s) as [z|]; simpl; [|done]. intros [= <-]. eauto.
Qed.

Lemma UNDERSCORE_kept : UNDERSCORE ∉ [SPACE; DOT].
Proof.
  unfold UNDERSCORE, SPACE, DOT. intros Hin.
  repeat (apply elem_of_cons in Hin as [Hin|Hin]; [done|]).
  by apply elem_of_nil in Hin.
Qed.

Lemma re_sub_ascii s :
  forallb is_ascii s = true →
  forallb is_ascii (re_sub illegal_chars UNDERSCORE s) = true.
Proof.
  induction s as [|c s IH]; simpl; [done|].
  intros [Hc Hs]%andb_prop. rewrite IH by done.
  case_bool_decide; [done | by rewrite Hc].
Qed.

(** A name with an extension that the strip and the cut leave whole: the
    sanitized name is the name with its illegal characters replaced, and
    its label is the replaced extension in lower case. *)
Lemma type_label_sanitized `{Library} name ext :
  name ≠ [] → ext ≠ [] → DOT ∉ ext → forallb is_ascii ext = true →
  (∀ c, head name = Some c → c ∉ [SPACE; DOT]) →
  (∀ c, last ext = Some c → c ≠ SPACE) →
  (length (name ++ DOT :: ext) ≤ 200)%nat →
  sanitize_filename (name ++ DOT :: ext)
  = re_sub illegal_chars UNDERSCORE name
    ++ DOT :: re_sub illegal_chars UNDERSCORE ext ∧
  type_label (sanitize_filename (name ++ DOT :: ext))
  = ascii_lower <$> re_sub illegal_chars UNDERSCORE ext.
Proof.
  intros Hn He Hd Ha Hh Hl Hlen.
  assert (sanitize_filename (name ++ DOT :: ext)
          = re_sub illegal_chars UNDERSCORE name
            ++ DOT :: re_sub illegal_chars UNDERSCORE ext) as Hs.
  { rewrite sanitize_filename_steps. simpl.
    rewrite re_sub_app.
    change (re_sub illegal_chars UNDERSCORE (DOT :: ext))
      with (DOT :: re_sub illegal_chars UNDERSCORE ext).
    rewrite strip_id.
    - rewrite take_ge
        by (rewrite length_app; simpl; rewrite !re_sub_length;
            rewrite length_app in Hlen; simpl in Hlen; lia).
      rewrite bool_decide_eq_false_2; [done|].
      destruct name; [done | discriminate].
    - destruct name as [|x name]; [done|]. simpl. intros c [= <-].
      case_bool_decide; [apply UNDERSCORE_kept | by apply Hh].
    - intros c [Hc|[Hc _]]%last_app_Some.
      + change (DOT :: re_sub illegal_chars UNDERSCORE ext)
          with (re_sub illegal_chars UNDERSCORE (DOT :: ext)) in Hc.
        apply re_sub_last in Hc as (z & Hz & ->).
        rewrite last_cons in Hz. destruct (last ext) as [y|] eqn:Hy.
        * injection Hz as ->. case_bool_decide; [apply UNDERSCORE_kept|].
          assert (z ∈ ext) as Hin by (by apply last_Some_elem_of).
          assert (z ≠ SPACE) by (by apply Hl).
          assert (z ≠ DOT) by congruence.
          intros Hc. repeat (apply elem_of_cons in Hc as [Hc|Hc]; [done|]).
          by apply elem_of_nil in Hc.
        * apply last_None in Hy. done.
      + apply last_None in Hc. discriminate Hc. }
  split; [done|]. rewrite Hs. apply type_label_extension.
  - destruct name; [done | discriminate].
  - destruct ext; [done | discriminate].
  - apply re_sub_not_in; [done | done].
  - by apply re_sub_ascii.
Qed.

Lemma lstrip_app chars a b :
  lstrip chars a ≠ [] → lstrip chars (a ++ b) = lstrip chars a ++ b.
Proof.
  induction a as [|x a IH]; simpl; [done|].
  case_bool_decide; [exact IH | done].
Qed.

Lemma lstrip_lstrip chars s : lstrip chars (lstrip chars s) = lstrip chars s.
Proof.
  destruct (lstrip_spec chars s) as (pre & _ & _ & Hh). by apply lstrip_id.
Qed.

Lemma lstrip_re_sub s :
  lstrip [SPACE; DOT] (re_sub illegal_chars UNDERSCORE s)
  = re_sub illegal_chars UNDERSCORE (lstrip [SPACE; DOT] s).
Proof.
  induction s as [|c s IH]; [done|].
  change (re_sub illegal_chars UNDERSCORE (c :: s))
    with ((if bool_decide (c ∈ illegal_chars) then UNDERSCORE else c)
          :: re_sub illegal_chars UNDERSCORE s).
  simpl. destruct (decide (c ∈ [SPACE; DOT])) as [Hc|Hc].
  - assert (c ∉ illegal_chars) as Hl.
    { apply elem_of_cons in Hc as [->|Hc];
        [|apply list_elem_of_singleton in Hc as ->];
        by apply (bool_decide_unpack _). }
    rewrite (bool_decide_eq_false_2 _ Hl).
    by rewrite !(bool_decide_eq_true_2 _ Hc).
  - rewrite (bool_decide_eq_false_2 (c ∈ [SPACE; DOT])) by done.
    destruct (decide (c ∈ illegal_chars)) as [Hl|Hl].
    + rewrite (bool_decide_eq_true_2 _ Hl).
      rewrite (bool_decide_eq_false_2 _ UNDERSCORE_kept).
      unfold re_sub. rewrite fmap_cons.
      by rewrite (bool_decide_eq_true_2 _ Hl).
    + rewrite (bool_decide_eq_false_2 _ Hl).
      rewrite (bool_decide_eq_false_2 _ Hc).
      unfold re_sub. rewrite fmap_cons.
      by rewrite (bool_decide_eq_false_2 _ Hl).
Qed.

(** Leading spaces and dots do not count. *)
Lemma sanitize_filename_lstrip filename :
  sanitize_filename (lstrip [SPACE; DOT] filename)
  = sanitize_filename filename.
Proof.
  rewrite !sanitize_filename_steps. simpl. unfold strip.
  by rewrite !lstrip_re_sub, lstrip_lstrip.
Qed.

Lemma sanitize_filename_no_dot filename :
  DOT ∉ filename → DOT ∉ sanitize_filename filename.
Proof.
  intros Hd. rewrite sanitize_filename_steps. simpl. case_bool_decide.
  - by apply (bool_decide_unpack _).
  - assert (Forall (λ c, c ≠ DOT)
              (take 200 (strip [SPACE; DOT]
                           (re_sub illegal_chars UNDERSCORE filename)))) as Hall.
    { apply Forall_take. eapply strips_to_Forall; [apply strip_spec|].
      apply Forall_forall. intros c Hc ->.
      by apply (re_sub_not_in illegal_chars UNDERSCORE DOT filename). }
    rewrite Forall_forall in Hall. intros Hin. by apply (Hall DOT Hin).
Qed.

(** A name that is only a dot and an extension loses the dot, and with it
    the extension. *)
Lemma type_label_dot_led `{Library} ext :
  DOT ∉ ext →
  sanitize_filename (DOT :: ext) = sanitize_filename ext ∧
  (DOT ∉ sanitize_filename (DOT :: ext)) ∧
  type_label (sanitize_filename (DOT :: ext)) = OTHER.
Proof.
  intros Hd.
  assert (sanitize_filename (DOT :: ext) = sanitize_filename ext) as Hs.
  { rewrite <- (sanitize_filename_lstrip (DOT :: ext)).
    change (lstrip [SPACE; DOT] (DOT :: ext)) with (lstrip [SPACE; DOT] ext).
    apply sanitize_filename_lstrip. }
  rewrite Hs. split_and!; [done | by apply sanitize_filename_no_dot |].
  by apply type_label_no_dot, sanitize_filename_no_dot.
Qed.

(** A name with an extension that the strip and the cut leave whole,
    after any leading spaces and dots: its label is the replaced
    extension in lower case. *)
Lemma type_label_sanitized_stripped `{Library} name ext :
  ext ≠ [] → DOT ∉ ext → forallb is_ascii ext = true →
  (∀ c, last ext = Some c → c ≠ SPACE) →
  lstrip [SPACE; DOT] name ≠ [] →
  (length (lstrip [SPACE; DOT] name) + 1 + length ext ≤ 200)%nat →
  type_label (sanitize_filename (name ++ DOT :: ext))
  = ascii_lower <$> re_sub illegal_chars UNDERSCORE ext.
Proof.
  intros He Hd Ha Hl Hn Hlen.
  rewrite <- (sanitize_filename_lstrip (name ++ DOT :: ext)).
  rewrite lstrip_app by done.
  apply type_label_sanitized; try done.
  - destruct (lstrip_spec [SPACE; DOT] name) as (pre & _ & _ & Hh). done.
  - rewrite length_app. simpl. lia.
Qed.

(** C9, as the code has it: with classification on, an attachment is
    saved under the label of its sanitized name: the part is saved as
    [save_attachment] of the sanitized name, and the path it adds lies in
    the base directory joined with the label of that name.  For a decoded
    name with an ASCII extension that does not end in a space, a name
    before it that is more than spaces and dots, and a length, leading
    spaces and dots apart, of at most 200, so that the cut does not reach
    the extension, the label is the extension with its illegal characters
    replaced, in lower case; doc.p?f is saved under p_f, while the label
    of the decoded name would be p?f.  A name that is only a dot and an
    extension loses the dot when it is sanitized, has no extension left
    and is saved under 其他, as .txt is. *)
Theorem label_from_sanitized_name `{Library} (opts : options) (base : path) :
  (∀ part filename s found,
     is_attachment part = true →
     decode_header (msg_filename part) = Ok filename →
     classify_by_type opts = true →
     extract_part opts base part s found
     = save_attachment opts base (sanitize_filename filename)
         (default [] (msg_payload part)) s found ∧
     ∀ s' found',
       extract_part opts base part s found = Some (s', Ok found') →
       ∃ n, resolved_name (sanitize_filename filename) n ∧
            found' = found ++
              [joinpath
                 (joinpath base (type_label (sanitize_filename filename)))
                 n]) ∧
  (∀ name ext,
     ext ≠ [] → DOT ∉ ext → forallb is_ascii ext = true →
     (∀ c, last ext = Some c → c ≠ SPACE) →
     lstrip [SPACE; DOT] name ≠ [] →
     (length (lstrip [SPACE; DOT] name) + 1 + length ext ≤ 200)%nat →
     type_label (sanitize_filename (name ++ DOT :: ext))
     = ascii_lower <$> re_sub illegal_chars UNDERSCORE ext) ∧
  (∀ ext,
     DOT ∉ ext →
     sanitize_filename (DOT :: ext) = sanitize_filename ext ∧
     (DOT ∉ sanitize_filename (DOT :: ext)) ∧
     type_label (sanitize_filename (DOT :: ext)) = OTHER) ∧
  (sanitize_filename (lit "doc.p?f") = lit "doc.p_f" ∧
   type_label (sanitize_filename (lit "doc.p?f")) = lit "p_f" ∧
   type_label (lit "doc.p?f") = lit "p?f") ∧
  (sanitize_filename (lit ".txt") = lit "txt" ∧
   type_label (sanitize_filename (lit ".txt")) = OTHER).
Proof.
  split; [|split; [|split; [|split; [split_and! | split]]]].
  - intros part filename s found Ha Hdec Hc.
    rewrite (extract_part_attachment opts base part s found filename Ha Hdec).
    split; [done|].
    intros s' found' (n & -> & Hn & _)%save_attachment_ok.
    exists n. split; [done|]. unfold target_dir. by rewrite Hc.
  - intros name ext He Hd Ha Hl Hn Hlen.
    by apply type_label_sanitized_stripped.
  - intros ext Hd. by apply type_label_dot_led.
  - vm_compute. reflexivity.
  - vm_compute. reflexivity.
  - vm_compute. reflexivity.
  - vm_compute. reflexivity.
  - vm_compute. reflexivity.
Qed.

(** The attachment doc.p?f, saved with classification into /out. *)
Lemma label_from_sanitized_name_witness :
  ∃ s',
    @extract_part sample (Options false true) OUT
      (attachment_part (lit "doc.p?f") (lit "x")) empty_fs []
    = Some (s', Ok [[lit "out"; lit "p_f"; lit "doc.p_f"]]).
Proof.
  destruct (proj1 (@label_from_sanitized_name sample (Options false true) OUT)
              (attachment_part (lit "doc.p?f") (lit "x")) (lit "doc.p?f")
              empty_fs [] eq_refl eq_refl eq_refl) as [Heq _].
  rewrite Heq. eexists. vm_compute. reflexivity.
Defined.

(** C9 as stated fails on a name that the cut to 200 characters
    shortens: 199 letters and the extension p?f are cut after the dot,
    the sanitized name has no extension left, and the label is 其他, not
    p_f. *)
Lemma label_lost_by_cut :
  ¬ @label_as_specified sample (replicate 199 97) (lit "p?f").
Proof. intros E. vm_compute in E. discriminate E. Qed.

(** ** The subject folder *)

Lemma fs_le_is_dir s s' p : fs_le s s' → is_dir s p = true → is_dir s' p = true.
Proof.
  intros [_ Hd]. unfold is_dir. rewrite !bool_decide_eq_true.
  intros [->|Hp]; [by left | right; by apply Hd].
Qed.

(** C10: the fall-back to the stem of the file name is taken exactly when
    the decoded subject is empty.  A subject that is not empty but
    sanitizes to nothing gives the folder name 未命名, whatever the source
    file is called: the run creates that folder below the output
    directory and writes every attachment below it. *)
Theorem subject_fallback_before_sanitization `{Library} (opts : options)
    (s : fs) (eml_path out : path) (msg : message) (subject : pystr)
    (Hread : read_message eml_path = Ok msg)
    (Hsubj : decode_header (Some (default [] (msg_subject msg))) = Ok subject)
    (Hne : subject ≠ [])
    (Hblank : strip [SPACE; DOT] (re_sub illegal_chars UNDERSCORE subject) = [])
    (Hsub : create_subfolder opts = true) :
  subject_of [] eml_path = stem (path_name eml_path) ∧
  subject_of subject eml_path = subject ∧
  sanitize_filename (subject_of subject eml_path) = UNNAMED ∧
  extract_try opts s eml_path out
  = match mkdir s (joinpath out UNNAMED) with
    | Ok s1 => extract_parts opts (joinpath out UNNAMED) (walk msg) s1 []
    | Raise e => Some (s, Raise e)
    end ∧
  ∀ s' found,
    extract_attachments opts s eml_path out = Some (s', (found, None)) →
    is_dir s' (joinpath out UNNAMED) = true ∧
    Forall (λ p, ∃ below, p = joinpath out UNNAMED ++ below) found.
Proof.
  assert (subject_of subject eml_path = subject) as Hof
    by (unfold subject_of; by rewrite bool_decide_eq_false_2).
  assert (sanitize_filename subject = UNNAMED) as Hsan
    by (rewrite sanitize_filename_steps; simpl; by rewrite Hblank).
  assert (base_output_dir_of opts out UNNAMED = joinpath out UNNAMED) as Hbase
    by (unfold base_output_dir_of; by rewrite Hsub).
  split_and!.
  - done.
  - done.
  - by rewrite Hof.
  - unfold extract_try. by rewrite Hread, Hsubj, Hof, Hsan, Hbase.
  - intros s' found Hrun.
    apply extract_attachments_ok in Hrun
      as (msg' & subject' & s1 & Hread' & Hsubj' & Hmk & Hparts).
    rewrite Hread in Hread'. injection Hread' as <-.
    rewrite Hsubj in Hsubj'. injection Hsubj' as <-.
    rewrite Hof, Hsan, Hbase in Hmk, Hparts.
    apply extract_parts_inv in Hparts as (new & -> & Hw & _ & _ & Hle).
    split.
    + eapply fs_le_is_dir; [done | by eapply mkdir_is_dir].
    + simpl. clear -Hw. induction Hw as [|p part new parts Hp _ IH];
        constructor; [|done].
      destruct Hp as (filename & n & _ & _ & -> & _).
      unfold target_dir, joinpath. destruct (classify_by_type opts).
      * eexists. by rewrite <- !List.app_assoc.
      * by eexists.
Qed.

(** The message whose subject is made of dots and spaces, from the file
    msg001.eml: its folder is 未命名, not msg001. *)
Lemma subject_fallback_before_sanitization_witness :
  ∃ s',
    @extract_attachments sample (Options true false) empty_fs dots_eml OUT
    = Some (s', ([[lit "out"; UNNAMED; lit "a.txt"]], None)) ∧
    is_dir s' [lit "out"; UNNAMED] = true ∧
    stem (path_name dots_eml) = lit "msg001".
Proof.
  assert (∃ s',
    @extract_attachments sample (Options true false) empty_fs dots_eml OUT
    = Some (s', ([[lit "out"; UNNAMED; lit "a.txt"]], None)))
    as [s' Hrun].
  { eexists. vm_compute. reflexivity. }
  exists s'. split; [exact Hrun|].
  destruct (@subject_fallback_before_sanitization sample (Options true false)
              empty_fs dots_eml OUT dots_message (lit ". .. .")
              eq_refl eq_refl)
    as (_ & _ & _ & _ & Hdir).
  - discriminate.
  - reflexivity.
  - reflexivity.
  - split; [exact (proj1 (Hdir s' _ Hrun)) | reflexivity].
Defined.

(** ** The worker *)

Lemma filter_failed_length {A} (f : A → bool) (l : list A) :
  (length (List.filter f l) + length (List.filter (λ x, negb (f x)) l)
   = length l)%nat.
Proof.
  induction l as [|x l IH]; simpl; [done|].
  destruct (f x); simpl; lia.
Qed.

Lemma log_files_app log1 log2 :
  log_files (log1 ++ log2) = log_files log1 ++ log_files log2.
Proof. apply omap_app. Qed.

Lemma log_files_attachments (attachments : list path) :
  log_files ((λ att, LogAttachment (path_name att)) <$> attachments) = [].
Proof. induction attachments as [|a l IH]; simpl; [done | exact IH]. Qed.

Section Worker.
Context `{Library}.
Variable opts : options.

(** One turn of the loop on a file whose run reports an error with a
    non-empty text, and on one whose run reports an empty text. *)
Lemma worker_loop_error eml_path rest out s s' c log error :
  extract_attachments opts s eml_path out = Some (s', ([], Some error)) →
  error ≠ [] →
  worker_loop opts (eml_path :: rest) out s c log
  = worker_loop opts rest out s'
      (Counters (total_attachments c) (success_count c) (error_count c + 1))
      (log ++ [LogFile (path_name eml_path); LogError error]).
Proof.
  intros Hrun Hne. simpl. rewrite Hrun.
  destruct error as [|x error]; [done|]. simpl.
  by rewrite <- List.app_assoc.
Qed.

Lemma worker_loop_empty_error eml_path rest out s s' c log :
  extract_attachments opts s eml_path out = Some (s', ([], Some [])) →
  worker_loop opts (eml_path :: rest) out s c log
  = worker_loop opts rest out s'
      (Counters (total_attachments c) (success_count c + 1) (error_count c))
      (log ++ [LogFile (path_name eml_path); LogNoAttachment]).
Proof.
  intros Hrun. simpl. rewrite Hrun. simpl.
  by rewrite <- List.app_assoc.
Qed.

Lemma extract_attachments_unreadable s eml_path out e :
  read_message eml_path = Raise e →
  extract_attachments opts s eml_path out = Some (s, ([], Some (exn_str e))).
Proof.
  intros Hread. unfold extract_attachments, extract_try. by rewrite Hread.
Qed.

Lemma worker_loop_counts eml_files out s c log :
  ∃ s' c' log' results,
    worker_loop opts eml_files out s c log = Some (s', c', log') ∧
    extract_batch opts eml_files out s = Some results ∧
    results.*1 = eml_files ∧
    log_files log' = log_files log ++ (path_name <$> eml_files) ∧
    (success_count c'
     = success_count c
       + length (List.filter (λ r, negb (counted_failed r)) results))%nat ∧
    (error_count c'
     = error_count c + length (List.filter counted_failed results))%nat ∧
    (total_attachments c'
     = total_attachments c + sum_list (written_count <$> results))%nat.
Proof.
  revert s c log.
  induction eml_files as [|eml_path rest IH]; intros s c log.
  - exists s, c, log, []. simpl. rewrite List.app_nil_r.
    split_and!; (done || lia).
  - destruct (extract_attachments_total opts s eml_path out)
      as [[s1 [attachments error]] Hrun].
    simpl. rewrite Hrun.
    assert (counted_failed (eml_path, (attachments, error)) = truthy error)
      as Hcf by done.
    assert (truthy error = true → attachments = []) as Hnone.
    { destruct error as [error|]; [|done]. intros _.
      by eapply extract_attachments_error. }
    destruct (truthy error) eqn:Herr; [|case_bool_decide as Hatt];
      edestruct IH as (s' & c' & log' & rs & Hw & Hb & Hfst & Hlog & Hs & He & Ht);
      exists s', c', log', ((eml_path, (attachments, error)) :: rs);
      rewrite Hw, Hb, Hlog, !log_files_app;
      rewrite ?log_files_attachments;
      cbn [List.filter]; rewrite Hcf;
      (split_and!;
       [ done | done | exact (f_equal (cons eml_path) Hfst)
       | simpl; by rewrite <- !List.app_assoc
       | rewrite Hs; simpl; lia
       | rewrite He; simpl; lia
       | rewrite Ht, fmap_cons; unfold written_count at 2; simpl ]).
    + rewrite (Hnone eq_refl). simpl. lia.
    + lia.
    + assert (attachments = []) as -> by (by destruct attachments).
      simpl. lia.
Qed.

End Worker.

(** A file that cannot be read or parsed: the run returns the empty list
    and the text of the exception and leaves the file system as it was;
    the worker goes on with the next file, and counts the file as failed
    when the text is not empty. *)
Lemma worker_loop_unreadable `{Library} opts eml_path rest out s c log e :
  read_message eml_path = Raise e →
  extract_attachments opts s eml_path out = Some (s, ([], Some (exn_str e))) ∧
  (exn_str e ≠ [] →
   worker_loop opts (eml_path :: rest) out s c log
   = worker_loop opts rest out s
       (Counters (total_attachments c) (success_count c) (error_count c + 1))
       (log ++ [LogFile (path_name eml_path); LogError (exn_str e)])) ∧
  (exn_str e = [] →
   worker_loop opts (eml_path :: rest) out s c log
   = worker_loop opts rest out s
       (Counters (total_attachments c) (success_count c + 1) (error_count c))
       (log ++ [LogFile (path_name eml_path); LogNoAttachment])).
Proof.
  intros Hread.
  pose proof (extract_attachments_unreadable opts s eml_path out e Hread) as Hrun.
  split_and!.
  - done.
  - intros Hne. by apply worker_loop_error.
  - intros He. rewrite He in Hrun. by apply worker_loop_empty_error.
Qed.

(** C5 fails on a file whose reading raises an exception with an empty
    text, as [MemoryError()]: the run returns the empty list and the
    empty string, the test [if error:] of the worker takes the empty
    string for no error, and the file is counted as a success without
    attachments; the failed count stays 0. *)
Theorem empty_error_text_counted_as_success :
  @extract_attachments sample (Options true false) empty_fs huge_eml OUT
  = Some (empty_fs, ([], Some [])) ∧
  @extraction_worker sample (Options true false) [huge_eml] OUT empty_fs
  = Some (empty_fs, Counters 0 1 0,
          [LogFile (lit "huge.eml"); LogNoAttachment]).
Proof. split; reflexivity. Qed.

(** C6: the worker ends on every list of files; it runs the files in the
    order of the list, each on the file system the one before has left;
    every file adds one to exactly one of the two counts, the failed one
    when its run reports an error with a non-empty text and the succeeded
    one otherwise, with or without attachments, so that the two counts
    add up to the number of files; and the attachment count is the sum of
    the lengths of the lists the runs return. *)
Theorem batch_counts_every_file `{Library} (opts : options)
    (eml_files : list path) (out : path) (s : fs) :
  ∃ s' c log results,
    extraction_worker opts eml_files out s = Some (s', c, log) ∧
    extract_batch opts eml_files out s = Some results ∧
    results.*1 = eml_files ∧
    log_files log = path_name <$> eml_files ∧
    success_count c
    = length (List.filter (λ r, negb (counted_failed r)) results) ∧
    error_count c = length (List.filter counted_failed results) ∧
    (success_count c + error_count c = length eml_files)%nat ∧
    total_attachments c = sum_list (written_count <$> results).
Proof.
  destruct (worker_loop_counts opts eml_files out s (Counters 0 0 0) [])
    as (s' & c & log & results & Hw & Hb & Hfst & Hlog & Hs & He & Ht).
  exists s', c, log, results. simpl in *.
  split_and!; try done.
  pose proof (filter_failed_length counted_failed results) as Hlen.
  rewrite <- Hfst, length_fmap. lia.
Qed.

(** * Further properties of the code *)

(** ** Sanitized names as path components *)

Lemma re_sub_id class repl s :
  Forall (λ c, c ∉ class) s → re_sub class repl s = s.
Proof.
  induction 1 as [|c s Hc _ IH]; [done|].
  unfold re_sub in *. rewrite fmap_cons, IH.
  by rewrite bool_decide_eq_false_2.
Qed.

Lemma strips_to_length chars s t :
  strips_to chars s t → (length t ≤ length s)%nat.
Proof. intros (pre & post & -> & _). rewrite !length_app. lia. Qed.

Lemma sanitize_filename_safe_id filename :
  Forall (λ c, c ∉ illegal_chars) filename → filename ≠ [] →
  (∀ c, head filename = Some c → c ∉ [SPACE; DOT]) →
  (∀ c, last filename = Some c → c ∉ [SPACE; DOT]) →
  (length filename ≤ 200)%nat →
  sanitize_filename filename = filename.
Proof.
  intros Hc Hne Hh Hl Hlen. rewrite sanitize_filename_steps. simpl.
  rewrite re_sub_id by done. rewrite strip_id by done.
  rewrite take_ge by done. by rewrite bool_decide_eq_false_2.
Qed.

(** X1: a sanitized name is one path component that stays in its
    directory: it holds neither a slash nor a backslash, it is not empty,
    it is neither the dot nor the double dot, and it does not begin with a
    space or a dot. *)
Theorem sanitize_filename_component (filename : pystr) :
  (SLASH ∉ sanitize_filename filename) ∧
  (92 ∉ sanitize_filename filename) ∧
  sanitize_filename filename ≠ [] ∧
  (sanitize_filename filename ≠ [DOT]) ∧
  (sanitize_filename filename ≠ [DOT; DOT]) ∧
  (∀ c, head (sanitize_filename filename) = Some c → c ≠ SPACE ∧ c ≠ DOT).
Proof.
  pose proof (sanitize_filename_clean filename) as Hc.
  rewrite Forall_forall in Hc.
  assert (∀ c, head (sanitize_filename filename) = Some c →
               c ≠ SPACE ∧ c ≠ DOT) as Hh.
  { intros c Hc'. apply sanitize_filename_head in Hc'.
    split; intros ->; apply Hc'; [left | right; left]. }
  split_and!.
  - intros Hin. apply (Hc _ Hin). by apply (bool_decide_unpack _).
  - intros Hin. apply (Hc _ Hin). by apply (bool_decide_unpack _).
  - apply sanitize_filename_nonempty.
  - intros E. rewrite E in Hh. by destruct (Hh DOT eq_refl).
  - intros E. rewrite E in Hh. by destruct (Hh DOT eq_refl).
  - done.
Qed.

(** X2: a name that is already safe is left as it is, and sanitizing a
    name of at most 200 characters twice gives what sanitizing it once
    gives. *)
Theorem sanitize_filename_idempotent :
  (∀ filename,
     Forall (λ c, c ∉ illegal_chars) filename → filename ≠ [] →
     (∀ c, head filename = Some c → c ∉ [SPACE; DOT]) →
     (∀ c, last filename = Some c → c ∉ [SPACE; DOT]) →
     (length filename ≤ 200)%nat →
     sanitize_filename filename = filename) ∧
  (∀ filename,
     (length filename ≤ 200)%nat →
     sanitize_filename (sanitize_filename filename)
     = sanitize_filename filename).
Proof.
  split; [apply sanitize_filename_safe_id|].
  intros filename Hlen.
  pose proof (sanitize_filename_clean filename) as Hclean.
  pose proof (sanitize_filename_nonempty filename) as Hne.
  pose proof (sanitize_filename_length filename) as Hcap.
  apply sanitize_filename_safe_id; try done.
  - apply sanitize_filename_head.
  - revert Hne. rewrite sanitize_filename_steps. simpl.
    destruct (strip_spec [SPACE; DOT]
                (re_sub illegal_chars UNDERSCORE filename))
      as (pre & post & E & _ & _ & _ & Hl).
    assert (length (strip [SPACE; DOT]
                      (re_sub illegal_chars UNDERSCORE filename)) ≤ 200)%nat.
    { apply (f_equal length) in E.
      rewrite re_sub_length, !length_app in E. lia. }
    rewrite take_ge by done. case_bool_decide; [|done].
    intros _ c [= <-]. apply (bool_decide_unpack _). reflexivity.
Qed.

(** The name report.pdf is safe, and so is what sanitizing a name of
    spaces and illegal characters gives. *)
Lemma sanitize_filename_idempotent_witness :
  sanitize_filename (lit "report.pdf") = lit "report.pdf" ∧
  sanitize_filename (sanitize_filename (lit " a:b*c.txt. "))
  = sanitize_filename (lit " a:b*c.txt. ").
Proof.
  split.
  - apply (proj1 sanitize_filename_idempotent).
    + apply (bool_decide_unpack _). reflexivity.
    + discriminate.
    + intros c [= <-]. apply (bool_decide_unpack _). reflexivity.
    + intros c [= <-]. apply (bool_decide_unpack _). reflexivity.
    + simpl. lia.
  - apply (proj2 sanitize_filename_idempotent). simpl. lia.
Defined.

(** ** Exceptions that leave [decode_header] *)

Lemma decode_parts_app `{Library} before rest decoded_str :
  Forall word_handled before →
  decode_parts (before ++ rest) decoded_str
  = decode_parts rest (decoded_str ++ concat (word_text <$> before)).
Proof.
  intros Hall. revert decoded_str.
  induction Hall as [|pc before Hpc _ IH]; intros acc; simpl.
  - by rewrite List.app_nil_r.
  - rewrite (decode_part_handled pc Hpc), IH. by rewrite List.app_assoc.
Qed.

(** X3: when the decoding of a word raises an exception that is neither
    a [LookupError] nor a [UnicodeDecodeError], as the [UnicodeError] of
    the codec named undefined, [decode_header] raises that exception,
    whatever the words before it gave; the words after it are not
    decoded. *)
Theorem decode_header_unhandled_exception `{Library} (v : pystr)
    (before after : list (chunk * option pystr)) (b : bytes)
    (charset : option pystr) (e : exn)
    (Hsplit : email_header_decode_header v
              = Ok (before ++ (CBytes b, charset) :: after))
    (Hbefore : Forall word_handled before)
    (Hraise : bytes_decode (charset_or_utf8 charset) b = Raise e)
    (Hclass : is_lookup_or_decode_error e = false) :
  decode_header (Some v) = Raise e.
Proof.
  unfold decode_header. rewrite Hsplit.
  rewrite decode_parts_app by done. simpl.
  unfold decode_part. simpl. by rewrite Hraise, Hclass.
Qed.

(** A plain word followed by a word in the charset undefined. *)
Lemma decode_header_unhandled_exception_witness :
  @decode_header undefined_library (Some (lit "ab =?undefined?q?abc?="))
  = Raise (Exn UnicodeError (lit "undefined encoding")).
Proof.
  apply (@decode_header_unhandled_exception undefined_library
           (lit "ab =?undefined?q?abc?=") [(CBytes (lit "ab "), None)] []
           (lit "abc") (Some (lit "undefined"))).
  - reflexivity.
  - repeat constructor. intros b e Hb Hd. simpl in Hb. injection Hb as <-.
    vm_compute in Hd. discriminate Hd.
  - reflexivity.
  - reflexivity.
Defined.

(** ** The collision loop and its names *)

Lemma resolve_collision_first fuel s dir safe output_path counter p :
  resolve_collision fuel s dir safe output_path counter = Some p →
  (p = output_path ∧ path_exists s output_path = false) ∨
  (path_exists s output_path = true ∧
   ∃ k, counter ≤ k ∧ p = joinpath dir (numbered_name safe k) ∧
        path_exists s p = false ∧
        ∀ j, counter ≤ j → j < k →
             path_exists s (joinpath dir (numbered_name safe j)) = true).
Proof.
  revert output_path counter.
  induction fuel as [|fuel IH]; intros op c; simpl; [done|].
  destruct (path_exists s op) eqn:E.
  - intros Hr. right. split; [done|].
    apply IH in Hr as [[-> Hfree]|(Htaken & k & Hk & -> & Hfree & Hbelow)].
    + exists c. split_and!; [lia | done | done | intros j ? ?; lia].
    + exists k. split_and!; [lia | done | done |].
      intros j Hj Hjk. destruct (decide (j = c)) as [->|Hne]; [done|].
      apply Hbelow; lia.
  - intros [= <-]. by left.
Qed.

(** X4: the collision loop ends on every file system, and it gives the
    first free path in the order name, name_1, name_2 and so on: the
    plain name when nothing exists there, and otherwise the numbered name
    of the least number from 1 at which nothing exists. *)
Theorem collision_loop_first_free (s : fs) (dir : path) (safe : pystr) :
  ∃ p,
    resolve_collision (S (S (fs_size s))) s dir safe (joinpath dir safe) 1
    = Some p ∧
    path_exists s p = false ∧
    ((p = joinpath dir safe) ∨
     (path_exists s (joinpath dir safe) = true ∧
      ∃ k, 1 ≤ k ∧ p = joinpath dir (numbered_name safe k) ∧
           ∀ j, 1 ≤ j → j < k →
                path_exists s (joinpath dir (numbered_name safe j)) = true)).
Proof.
  destruct (resolve_collision_total s dir safe (joinpath dir safe) 1)
    as [p Hp].
  exists p. split; [done|].
  apply resolve_collision_first in Hp
    as [[-> Hfree]|(Htaken & k & Hk & -> & Hfree & Hbelow)].
  - split; [done | by left].
  - split; [done | right]. split; [done|]. by exists k.
Qed.

Lemma digits_clean d : Forall (λ c, c ∉ illegal_chars) (digits d).
Proof.
  induction d; simpl; constructor; try done;
    by apply (bool_decide_unpack _).
Qed.

Lemma rfind_from_lower i c s : (0 ≤ i)%Z → (-1 ≤ rfind_from i c s)%Z.
Proof.
  revert i. induction s as [|x s IH]; intros i Hi; simpl; [lia|].
  specialize (IH (i + 1)%Z). repeat case_bool_decide; lia.
Qed.

Lemma splitext_no_dot p : DOT ∉ p → splitext p = (p, []).
Proof.
  intros Hd. unfold splitext, genericpath_splitext, rfind.
  rewrite (rfind_from_none _ DOT) by done.
  pose proof (rfind_from_lower 0 SLASH p).
  rewrite bool_decide_eq_false_2; [done | lia].
Qed.

Lemma splitext_extension name ext :
  SLASH ∉ name ++ DOT :: ext → DOT ∉ ext →
  (∀ c, head name = Some c → c ≠ DOT) → name ≠ [] →
  splitext (name ++ DOT :: ext) = (name, DOT :: ext).
Proof.
  intros Hs Hd Hh Hn. unfold splitext, genericpath_splitext, rfind.
  rewrite (rfind_from_none _ SLASH) by done.
  rewrite rfind_from_last by (done || lia).
  rewrite bool_decide_eq_true_2 by lia.
  replace (Z.to_nat (0 + Z.of_nat (length name) - (-1 + 1)))
    with (length name) by lia.
  replace (Z.to_nat (-1 + 1)) with 0%nat by lia.
  replace (Z.to_nat (0 + Z.of_nat (length name))) with (length name) by lia.
  rewrite drop_0, take_app_length, drop_app_length.
  destruct name as [|x name]; [done|]. simpl.
  rewrite bool_decide_eq_false_2; [done|]. by apply Hh.
Qed.

(** X5: a numbered name is the sanitized name with an underscore and the
    number put before its extension, or at its end when it has none; it
    holds no illegal character; and as the number is added after the cut
    to 200 characters, it is longer than the sanitized name by one and
    the digits of the number, so it may pass the 200 characters. *)
Theorem numbered_name_shape (filename : pystr) (k : N) :
  Forall (λ c, c ∉ illegal_chars)
    (numbered_name (sanitize_filename filename) k) ∧
  length (numbered_name (sanitize_filename filename) k)
  = (length (sanitize_filename filename) + 1 + length (str_int k))%nat ∧
  (DOT ∉ sanitize_filename filename →
   numbered_name (sanitize_filename filename) k
   = sanitize_filename filename ++ [UNDERSCORE] ++ str_int k) ∧
  (∀ name ext,
     sanitize_filename filename = name ++ DOT :: ext → DOT ∉ ext →
     numbered_name (sanitize_filename filename) k
     = name ++ [UNDERSCORE] ++ str_int k ++ DOT :: ext).
Proof.
  pose proof (sanitize_filename_clean filename) as Hclean.
  pose proof (genericpath_splitext_app (sanitize_filename filename) SLASH None)
    as Happ.
  fold (splitext (sanitize_filename filename)) in Happ.
  split_and!.
  - unfold numbered_name.
    destruct (splitext (sanitize_filename filename)) as [name ext].
    simpl in Happ. rewrite <- Happ in Hclean.
    apply Forall_app in Hclean as [Hn He].
    apply Forall_app. split; [done|]. constructor.
    + by apply (bool_decide_unpack _).
    + apply Forall_app. split; [apply digits_clean | done].
  - unfold numbered_name.
    destruct (splitext (sanitize_filename filename)) as [name ext].
    simpl in Happ. rewrite <- Happ. rewrite !length_app. simpl.
    rewrite ?length_app. lia.
  - intros Hd. unfold numbered_name. rewrite splitext_no_dot by done.
    by rewrite List.app_nil_r.
  - intros name ext E Hd. unfold numbered_name.
    assert (name ≠ []) as Hn.
    { intros ->. pose proof (sanitize_filename_head filename DOT) as Hh.
      rewrite E in Hh. apply (Hh eq_refl). right. left. }
    rewrite E, splitext_extension; [done | | done | | done].
    + rewrite <- E. rewrite Forall_forall in Hclean.
      intros Hin. apply (Hclean _ Hin). by apply (bool_decide_unpack _).
    + intros c Hc Hdot. subst c.
      pose proof (sanitize_filename_head filename DOT) as Hh.
      rewrite E in Hh. destruct name as [|x name]; [done|].
      simpl in Hc, Hh. injection Hc as ->. apply (Hh eq_refl). right. left.
Qed.

(** The report numbered 2, and a name without extension numbered 1. *)
Lemma numbered_name_shape_witness :
  numbered_name (sanitize_filename (lit "report.pdf")) 2 = lit "report_2.pdf" ∧
  numbered_name (sanitize_filename (lit "README")) 1 = lit "README_1".
Proof.
  split.
  - apply (proj2 (proj2 (proj2 (numbered_name_shape (lit "report.pdf") 2)))
             (lit "report") (lit "pdf")).
    + reflexivity.
    + apply (bool_decide_unpack _). reflexivity.
  - apply (proj1 (proj2 (proj2 (numbered_name_shape (lit "README") 1)))).
    apply (bool_decide_unpack _). reflexivity.
Defined.

(** ** Runs *)

Lemma stem_extension name ext :
  name ≠ [] → ext ≠ [] → DOT ∉ ext → stem (name ++ DOT :: ext) = name.
Proof.
  intros Hn He Hd. unfold stem, rfind.
  rewrite rfind_from_last by (done || lia).
  rewrite length_app. simpl.
  rewrite bool_decide_eq_true_2.
  - replace (Z.to_nat (0 + Z.of_nat (length name))) with (length name) by lia.
    by rewrite take_app_length.
  - destruct name; [done|]. destruct ext; [done|]. simpl. lia.
Qed.

Lemma path_name_joinpath dir name : path_name (joinpath dir name) = name.
Proof. unfold path_name, joinpath. by rewrite last_snoc. Qed.

Section MoreRuns.
Context `{Library}.
Variable opts : options.

Lemma extract_parts_all_skipped base parts s found :
  Forall (λ part, msg_disposition part ≠ Some ATTACHMENT ∨
                  truthy (msg_filename part) = false) parts →
  extract_parts opts base parts s found = Some (s, Ok found).
Proof.
  induction 1 as [|part parts [Hd|Hf] _ IH]; simpl; [done| |].
  - by rewrite extract_part_not_attachment.
  - by rewrite extract_part_no_filename.
Qed.

End MoreRuns.

(** X6: a message in which no part is an attachment with a file name is
    no error: when the base directory can be created the run returns the
    empty list and no error text, creates the base directory and its
    missing ancestors, and writes no file. *)
Theorem run_without_attachments `{Library} (opts : options) (s s1 : fs)
    (eml_path out : path) (msg : message) (subject : pystr)
    (Hread : read_message eml_path = Ok msg)
    (Hsubj : decode_header (Some (default [] (msg_subject msg))) = Ok subject)
    (Hnone : Forall (λ part, msg_disposition part ≠ Some ATTACHMENT ∨
                             truthy (msg_filename part) = false) (walk msg))
    (Hmk : mkdir s (base_output_dir_of opts out
                      (sanitize_filename (subject_of subject eml_path)))
           = Ok s1) :
  extract_attachments opts s eml_path out = Some (s1, ([], None)) ∧
  is_dir s1 (base_output_dir_of opts out
               (sanitize_filename (subject_of subject eml_path))) = true ∧
  fs_files s1 = fs_files s ∧
  fs_dirs s ⊆ fs_dirs s1.
Proof.
  split_and!.
  - unfold extract_attachments, extract_try. rewrite Hread, Hsubj, Hmk.
    by rewrite extract_parts_all_skipped.
  - by eapply mkdir_is_dir.
  - by apply mkdir_ok in Hmk as [-> _].
  - apply mkdir_le in Hmk as [_ Hd]. done.
Qed.

(** The message with a text part and an inline image. *)
Lemma run_without_attachments_witness :
  ∃ s1,
    @extract_attachments undefined_library (Options true false) empty_fs
      plain_eml OUT = Some (s1, ([], None)) ∧
    is_dir s1 [lit "out"; lit "hello"] = true ∧
    fs_files s1 = ∅.
Proof.
  exists (FS ∅ (∅ ∪ list_to_set
                  (ancestors_and_self [lit "out"; lit "hello"]))).
  destruct (@run_without_attachments undefined_library (Options true false)
              empty_fs
              (FS ∅ (∅ ∪ list_to_set
                       (ancestors_and_self [lit "out"; lit "hello"])))
              plain_eml OUT plain_message (lit "hello")
              eq_refl eq_refl) as (Hrun & Hdir & Hfiles & _).
  - unfold plain_message, multipart, text_part. simpl.
    repeat (apply Forall_cons; split;
            [left; intros E; vm_compute in E; discriminate E|]).
    apply Forall_nil_2.
  - reflexivity.
  - split_and!; [exact Hrun | exact Hdir | exact Hfiles].
Defined.

(** X7: when the subject decodes to the empty string, as when the
    message has no subject header, the subject is the stem of the source
    file name: for a file called name.ext the folder of the message is
    the sanitized name, created below the output directory. *)
Theorem empty_subject_uses_stem `{Library} (opts : options) (s : fs)
    (eml_path out : path) (msg : message) (name ext : pystr)
    (Hread : read_message eml_path = Ok msg)
    (Hsubj : decode_header (Some (default [] (msg_subject msg))) = Ok [])
    (Hsub : create_subfolder opts = true)
    (Hfile : path_name eml_path = name ++ DOT :: ext)
    (Hname : name ≠ []) (Hext : ext ≠ []) (Hdot : DOT ∉ ext) :
  subject_of [] eml_path = name ∧
  extract_try opts s eml_path out
  = match mkdir s (joinpath out (sanitize_filename name)) with
    | Ok s1 =>
        extract_parts opts (joinpath out (sanitize_filename name))
          (walk msg) s1 []
    | Raise e => Some (s, Raise e)
    end ∧
  ∀ s' found,
    extract_attachments opts s eml_path out = Some (s', (found, None)) →
    is_dir s' (joinpath out (sanitize_filename name)) = true ∧
    Forall (λ p, ∃ below, p = joinpath out (sanitize_filename name) ++ below)
      found.
Proof.
  assert (subject_of [] eml_path = name) as Hof.
  { unfold subject_of. simpl. rewrite Hfile. by apply stem_extension. }
  assert (base_output_dir_of opts out (sanitize_filename name)
          = joinpath out (sanitize_filename name)) as Hbase
    by (unfold base_output_dir_of; by rewrite Hsub).
  split_and!.
  - done.
  - unfold extract_try. by rewrite Hread, Hsubj, Hof, Hbase.
  - intros s' found Hrun.
    apply extract_attachments_ok in Hrun
      as (msg' & subject' & s1 & Hread' & Hsubj' & Hmk & Hparts).
    rewrite Hread in Hread'. injection Hread' as <-.
    rewrite Hsubj in Hsubj'. injection Hsubj' as <-.
    rewrite Hof, Hbase in Hmk, Hparts.
    apply extract_parts_inv in Hparts as (new & -> & Hw & _ & _ & Hle).
    split.
    + eapply fs_le_is_dir; [done | by eapply mkdir_is_dir].
    + simpl. clear -Hw. induction Hw as [|p part new parts Hp _ IH];
        constructor; [|done].
      destruct Hp as (filename & n & _ & _ & -> & _).
      unfold target_dir, joinpath. destruct (classify_by_type opts).
      * eexists. by rewrite <- !List.app_assoc.
      * by eexists.
Qed.

(** The message without subject header from the file msg001.eml. *)
Lemma empty_subject_uses_stem_witness :
  ∃ s',
    @extract_attachments undefined_library (Options true false) empty_fs
      nosubject_eml OUT
    = Some (s', ([[lit "out"; lit "msg001"; lit "a.txt"]], None)) ∧
    is_dir s' [lit "out"; lit "msg001"] = true.
Proof.
  assert (∃ s',
    @extract_attachments undefined_library (Options true false) empty_fs
      nosubject_eml OUT
    = Some (s', ([[lit "out"; lit "msg001"; lit "a.txt"]], None)))
    as [s' Hrun].
  { eexists. vm_compute. reflexivity. }
  exists s'. split; [exact Hrun|].
  destruct (@empty_subject_uses_stem undefined_library (Options true false)
              empty_fs nosubject_eml OUT nosubject_message
              (lit "msg001") (lit "eml") eq_refl eq_refl eq_refl eq_refl)
    as (_ & _ & Hdir).
  - discriminate.
  - discriminate.
  - apply (bool_decide_unpack _). reflexivity.
  - exact (proj1 (Hdir s' _ Hrun)).
Defined.

(** ** Written names, and where the files go *)

Lemma numbered_name_clean safe k :
  Forall (λ c, c ∉ illegal_chars) safe →
  Forall (λ c, c ∉ illegal_chars) (numbered_name safe k).
Proof.
  intros Hclean. unfold numbered_name.
  pose proof (genericpath_splitext_app safe SLASH None) as Happ.
  fold (splitext safe) in Happ. destruct (splitext safe) as [name ext].
  simpl in Happ. rewrite <- Happ in Hclean.
  apply Forall_app in Hclean as [Hn He].
  apply Forall_app. split; [done|]. constructor.
  - by apply (bool_decide_unpack _).
  - apply Forall_app. split; [apply digits_clean | done].
Qed.

Lemma resolved_name_clean filename n :
  resolved_name (sanitize_filename filename) n →
  Forall (λ c, c ∉ illegal_chars) n ∧ n ≠ [].
Proof.
  intros [->|(k & _ & ->)].
  - split; [apply sanitize_filename_clean | apply sanitize_filename_nonempty].
  - split; [apply numbered_name_clean, sanitize_filename_clean|].
    intros E. pose proof (numbered_name_length (sanitize_filename filename) k).
    rewrite E in *. simpl in *. lia.
Qed.

(** X8: a run that returns its list returns one path for each
    attachment with a name and a body, no more and no fewer, in the order
    of the walk; and the name of every file it has written is not empty
    and holds none of the nine illegal characters. *)
Theorem one_clean_path_per_attachment `{Library} (opts : options)
    (s s' : fs) (eml_path out : path) (found : list path) (msg : message)
    (Hread : read_message eml_path = Ok msg)
    (Hrun : extract_attachments opts s eml_path out
            = Some (s', (found, None))) :
  length found = length (List.filter is_attachment (walk msg)) ∧
  Forall2
    (λ p part,
       ∃ filename,
         decode_header (msg_filename part) = Ok filename ∧
         resolved_name (sanitize_filename filename) (path_name p))
    found (List.filter is_attachment (walk msg)) ∧
  Forall (λ p, path_name p ≠ [] ∧
               Forall (λ c, c ∉ illegal_chars) (path_name p)) found.
Proof.
  destruct (extract_attachments_progress opts _ _ _ _ _ _ _ Hread Hrun)
    as (subject & written & done_parts & rest
        & _ & Hwalk & Hw & _ & _ & _ & Hfin).
  destruct (Hfin eq_refl) as [<- ->]. rewrite List.app_nil_r in Hwalk.
  rewrite Hwalk. split_and!.
  - by eapply Forall2_length.
  - eapply Forall2_impl; [done|].
    intros p part (filename & n & Hd & Hn & -> & _).
    exists filename. by rewrite path_name_joinpath.
  - clear -Hw. induction Hw as [|p part found parts Hp _ IH];
      constructor; [|done].
    destruct Hp as (filename & n & _ & Hn & -> & _).
    rewrite path_name_joinpath.
    apply resolved_name_clean in Hn as [Hc Hne]. done.
Qed.

(** The run on the message with two attachments named a.txt. *)
Lemma one_clean_path_per_attachment_witness :
  ∃ found,
    length found = 2%nat ∧
    Forall (λ p, path_name p ≠ [] ∧
                 Forall (λ c, c ∉ illegal_chars) (path_name p)) found.
Proof.
  assert (∃ s' found,
    @extract_attachments sample (Options true false) empty_fs twin_eml OUT
    = Some (s', (found, None))) as (s' & found & Hrun).
  { eexists _, _. vm_compute. reflexivity. }
  exists found.
  destruct (@one_clean_path_per_attachment sample (Options true false)
              empty_fs s' twin_eml OUT found twin_message eq_refl Hrun)
    as (Hlen & _ & Hclean).
  split; [exact Hlen | exact Hclean].
Defined.

Section Frames.
Context `{Library}.
Variable opts : options.

Lemma target_dir_below base safe : base `prefix_of` target_dir opts base safe.
Proof.
  unfold target_dir, joinpath. destruct (classify_by_type opts).
  - by eexists.
  - exists []. by rewrite List.app_nil_r.
Qed.

Lemma save_attachment_frame base safe payload s found s' r :
  save_attachment opts base safe payload s found = Some (s', r) →
  ∀ p, ¬ base `prefix_of` p → read_file s' p = read_file s p.
Proof.
  unfold save_attachment.
  destruct (mkdir _ _) as [s1|e1] eqn:Hmk; [|by intros [= <- _]].
  apply mkdir_ok in Hmk as [Hf1 _].
  destruct (resolve_collision _ _ _ _ _ _) as [p0|] eqn:Hres; [|done].
  apply resolve_collision_spec in Hres as [_ Hp0].
  assert (base `prefix_of` p0) as Hbelow.
  { destruct (target_dir_below base safe) as [k Hk].
    destruct Hp0 as [->|(j & _ & ->)]; unfold joinpath; rewrite Hk;
      eexists; by rewrite <- List.app_assoc. }
  destruct (write_file _ _ _) as [s2|e2] eqn:Hwr.
  - apply write_file_ok in Hwr as [Hf2 _].
    intros [= <- _] p Hp. unfold read_file. rewrite Hf2, Hf1.
    apply lookup_insert_ne. by intros ->.
  - intros [= <- _] p _. unfold read_file. by rewrite Hf1.
Qed.

Lemma extract_part_frame base part s found s' r :
  extract_part opts base part s found = Some (s', r) →
  ∀ p, ¬ base `prefix_of` p → read_file s' p = read_file s p.
Proof.
  unfold extract_part. case_bool_decide; [|by intros [= <- _]].
  destruct (truthy (msg_filename part)); [|by intros [= <- _]].
  destruct (decode_header _) as [filename|e]; [|by intros [= <- _]].
  destruct (msg_payload part) as [[|b bs]|]; try by intros [= <- _].
  apply save_attachment_frame.
Qed.

Lemma extract_parts_frame base parts s found s' r :
  extract_parts opts base parts s found = Some (s', r) →
  ∀ p, ¬ base `prefix_of` p → read_file s' p = read_file s p.
Proof.
  revert s found. induction parts as [|part parts IH]; intros s found; simpl.
  - by intros [= <- _].
  - destruct (extract_part opts base part s found)
      as [[s1 [f1|e]]|] eqn:E; [| |done].
    + intros Hrest p Hp. rewrite (IH _ _ Hrest p Hp).
      by eapply extract_part_frame.
    + intros [= <- _]. by eapply extract_part_frame.
Qed.

Lemma base_output_dir_below out safe_subject :
  out `prefix_of` base_output_dir_of opts out safe_subject.
Proof.
  unfold base_output_dir_of, joinpath. destruct (create_subfolder opts).
  - by eexists.
  - exists []. by rewrite List.app_nil_r.
Qed.

Lemma extract_attachments_frame s eml_path out s' r :
  extract_attachments opts s eml_path out = Some (s', r) →
  ∀ p, ¬ out `prefix_of` p → read_file s' p = read_file s p.
Proof.
  unfold extract_attachments, extract_try.
  destruct (read_message eml_path) as [msg|e]; [|by intros [= <- _]].
  destruct (decode_header _) as [subject|e]; [|by intros [= <- _]].
  destruct (mkdir _ _) as [s1|e] eqn:Hmk; [|by intros [= <- _]].
  apply mkdir_ok in Hmk as [Hf1 _].
  destruct (extract_parts _ _ _ _ _) as [[s2 r2]|] eqn:Hparts; [|done].
  intros Hres p Hp.
  assert (s2 = s') as -> by (destruct r2; by injection Hres).
  rewrite (extract_parts_frame _ _ _ _ _ _ Hparts p).
  - unfold read_file. by rewrite Hf1.
  - intros Hb. apply Hp. etrans; [apply base_output_dir_below | done].
Qed.

Lemma extract_attachments_le s eml_path out s' r :
  extract_attachments opts s eml_path out = Some (s', r) → fs_le s s'.
Proof.
  unfold extract_attachments, extract_try.
  destruct (read_message eml_path) as [msg|e];
    [|intros [= <- _]; apply fs_le_refl].
  destruct (decode_header _) as [subject|e];
    [|intros [= <- _]; apply fs_le_refl].
  destruct (mkdir _ _) as [s1|e] eqn:Hmk;
    [|intros [= <- _]; apply fs_le_refl].
  destruct (extract_parts _ _ _ _ _) as [[s2 r2]|] eqn:Hparts; [|done].
  apply extract_parts_progress in Hparts
    as (_ & _ & _ & _ & _ & _ & _ & Hle & _).
  intros Hres. assert (s2 = s') as -> by (destruct r2; by injection Hres).
  eapply fs_le_trans; [by eapply mkdir_le | done].
Qed.

End Frames.

(** X9: a run, whether it ends or fails, changes no file outside the
    output directory, and replaces no file at all: every file that
    existed keeps its content.  Every path it returns lies below the
    output directory, at most three components down: the subject folder,
    the type folder and the file name. *)
Theorem run_stays_below_output `{Library} (opts : options) (s s' : fs)
    (eml_path out : path) (found : list path) (error : option pystr)
    (Hrun : extract_attachments opts s eml_path out
            = Some (s', (found, error))) :
  (∀ p, ¬ out `prefix_of` p → read_file s' p = read_file s p) ∧
  (∀ p data, read_file s p = Some data → read_file s' p = Some data) ∧
  Forall (λ p, ∃ below, p = out ++ below ∧
                        (1 ≤ length below ≤ 3)%nat) found.
Proof.
  split_and!.
  - by eapply extract_attachments_frame.
  - by eapply extract_attachments_le.
  - destruct error as [error|].
    { apply extract_attachments_error in Hrun as ->. constructor. }
    apply extract_attachments_ok in Hrun
      as (msg & subject & s1 & _ & _ & _ & Hparts).
    apply extract_parts_inv in Hparts as (new & -> & Hw & _). simpl.
    clear -Hw. induction Hw as [|p part new parts Hp _ IH];
      constructor; [|done].
    destruct Hp as (filename & n & _ & _ & -> & _).
    unfold target_dir, base_output_dir_of, joinpath.
    destruct (classify_by_type opts), (create_subfolder opts);
      eexists; (split; [by rewrite <- ?List.app_assoc | simpl; lia]).
Qed.

(** The run on the report, into /out, beside a file /home/notes. *)
Lemma run_stays_below_output_witness :
  ∃ s',
    @extract_attachments sample (Options true true)
      (FS {[ [lit "home"; lit "notes"] := lit "keep" ]} ∅) q4_eml OUT
    = Some (s', ([[lit "out"; lit "Q4 Report"; lit "pdf"; lit "report.pdf"]],
                 None)) ∧
    read_file s' [lit "home"; lit "notes"] = Some (lit "keep").
Proof.
  assert (∃ s',
    @extract_attachments sample (Options true true)
      (FS {[ [lit "home"; lit "notes"] := lit "keep" ]} ∅) q4_eml OUT
    = Some (s', ([[lit "out"; lit "Q4 Report"; lit "pdf"; lit "report.pdf"]],
                 None))) as [s' Hrun].
  { eexists. vm_compute. reflexivity. }
  exists s'. split; [exact Hrun|].
  apply (proj1 (proj2 (run_stays_below_output _ _ _ _ _ _ _ Hrun))).
  reflexivity.
Defined.

(** X10: a message with one attachment, and otherwise only parts that
    are no attachments, extracted where the base and target directories
    can be created and nothing exists at the destination, returns the one
    path: output directory, then the sanitized subject when subject
    folders are on, then the type label when classification is on, then
    the sanitized file name; that file holds the body of the
    attachment. *)
Theorem single_attachment_run `{Library} (opts : options) (s s1 s2 : fs)
    (eml_path out : path) (msg : message) (subject filename : pystr)
    (before after : list message) (att : message)
    (Hread : read_message eml_path = Ok msg)
    (Hsubj : decode_header (Some (default [] (msg_subject msg))) = Ok subject)
    (Hwalk : walk msg = before ++ att :: after)
    (Hbefore : Forall (λ part, msg_disposition part ≠ Some ATTACHMENT) before)
    (Hafter : Forall (λ part, msg_disposition part ≠ Some ATTACHMENT) after)
    (Hatt : is_attachment att = true)
    (Hdec : decode_header (msg_filename att) = Ok filename)
    (Hmk1 : mkdir s (base_output_dir_of opts out
                       (sanitize_filename (subject_of subject eml_path)))
            = Ok s1)
    (Hmk2 : mkdir s1
              (target_dir opts
                 (base_output_dir_of opts out
                    (sanitize_filename (subject_of subject eml_path)))
                 (sanitize_filename filename)) = Ok s2)
    (Hfree : path_exists s1
               (joinpath
                  (target_dir opts
                     (base_output_dir_of opts out
                        (sanitize_filename (subject_of subject eml_path)))
                     (sanitize_filename filename))
                  (sanitize_filename filename)) = false) :
  ∃ s',
    extract_attachments opts s eml_path out
    = Some (s',
            ([joinpath
                (target_dir opts
                   (base_output_dir_of opts out
                      (sanitize_filename (subject_of subject eml_path)))
                   (sanitize_filename filename))
                (sanitize_filename filename)], None)) ∧
    read_file s'
      (joinpath
         (target_dir opts
            (base_output_dir_of opts out
               (sanitize_filename (subject_of subject eml_path)))
            (sanitize_filename filename))
         (sanitize_filename filename)) = msg_payload att.
Proof.
  eexists. unfold extract_attachments, extract_try.
  rewrite Hread, Hsubj, Hmk1, Hwalk.
  rewrite (extract_parts_single _ _ _ _ _ filename) by done.
  rewrite (save_attachment_first _ _ _ _ _ _ _ Hmk2 Hfree).
  split; [reflexivity|].
  unfold read_file. simpl. rewrite lookup_insert_eq.
  unfold is_attachment in Hatt.
  apply andb_prop in Hatt as [_ Hp].
  by destruct (msg_payload att) as [[|b bs]|].
Qed.

(** The report with subject folders and without classification. *)
Lemma single_attachment_run_witness :
  ∃ s',
    @extract_attachments sample (Options true false) empty_fs q4_eml OUT
    = Some (s', ([[lit "out"; lit "Q4 Report"; lit "report.pdf"]], None)) ∧
    read_file s' [lit "out"; lit "Q4 Report"; lit "report.pdf"]
    = Some (lit "%PDF-1.4").
Proof.
  apply (@single_attachment_run sample (Options true false) empty_fs
           (FS ∅ (∅ ∪ list_to_set
                    (ancestors_and_self [lit "out"; lit "Q4 Report"])))
           (FS ∅ ((∅ ∪ list_to_set
                     (ancestors_and_self [lit "out"; lit "Q4 Report"]))
                  ∪ list_to_set
                      (ancestors_and_self [lit "out"; lit "Q4 Report"])))
           q4_eml OUT q4_message (lit "Q4 Report") (lit "report.pdf")
           [q4_message; text_part]
           []
           (attachment_part (lit "report.pdf") (lit "%PDF-1.4"))).
  - reflexivity.
  - reflexivity.
  - reflexivity.
  - repeat (apply Forall_cons; split;
            [intros E; vm_compute in E; discriminate E|]).
    apply Forall_nil_2.
  - apply Forall_nil_2.
  - reflexivity.
  - reflexivity.
  - reflexivity.
  - reflexivity.
  - vm_compute. reflexivity.
Defined.

(** ** Batches *)

Section Batches.
Context `{Library}.
Variable opts : options.

Lemma Forall2_filter_true {A B} (R : A → B → Prop) (f : B → bool) l k :
  Forall2 R l (List.filter f k) →
  Forall (λ x, ∃ y, f y = true ∧ R x y) l.
Proof.
  intros HR.
  assert (Forall (λ y, f y = true) (List.filter f k)) as Hf.
  { apply Forall_forall. intros y Hy. apply list_elem_of_In in Hy.
    by apply List.filter_In in Hy as [_ Hy]. }
  induction HR as [|x y l k' Hxy _ IH]; [constructor|].
  apply Forall_cons in Hf as [Hy Hf]. constructor; [|by apply IH].
  by exists y.
Qed.

(** The paths a run returns: pairwise distinct, free before the run,
    files after it. *)
Lemma extract_attachments_found s eml_path out s' found error :
  extract_attachments opts s eml_path out = Some (s', (found, error)) →
  NoDup found ∧
  ∀ p, p ∈ found → path_exists s p = false ∧ is_file s' p.
Proof.
  intros Hrun. destruct error as [error|].
  { apply extract_attachments_error in Hrun as ->. split; [constructor|].
    intros p Hp. by apply elem_of_nil in Hp. }
  apply extract_attachments_ok in Hrun
    as (msg & subject & s1 & _ & _ & Hmk & Hparts).
  apply extract_parts_inv in Hparts as (new & -> & Hw & Hfresh & Hnd & _).
  simpl. split; [done|]. intros p Hp. split.
  - eapply fs_le_fresh; [by eapply mkdir_le | by apply Hfresh].
  - apply Forall2_filter_true in Hw. rewrite Forall_forall in Hw.
    destruct (Hw p Hp) as (part & Ha & filename & n & _ & _ & _ & Hr).
    unfold is_file. rewrite Hr. unfold is_attachment in Ha.
    apply andb_prop in Ha as [_ Ha].
    destruct (msg_payload part) as [[|b bs]|]; by eauto.
Qed.

Lemma worker_loop_paths eml_files out s c log s' c' log' :
  worker_loop opts eml_files out s c log = Some (s', c', log') →
  ∃ results,
    extract_batch opts eml_files out s = Some results ∧
    NoDup (batch_paths results) ∧
    (∀ p, p ∈ batch_paths results → path_exists s p = false ∧ is_file s' p) ∧
    (total_attachments c'
     = total_attachments c + length (batch_paths results))%nat ∧
    fs_le s s' ∧
    (∀ p, ¬ out `prefix_of` p → read_file s' p = read_file s p).
Proof.
  revert s c log. induction eml_files as [|eml_path rest IH];
    intros s c log; simpl.
  - intros [= <- <- <-]. exists []. split_and!; try done.
    + constructor.
    + intros p Hp. by apply elem_of_nil in Hp.
  - destruct (extract_attachments opts s eml_path out)
      as [[s1 [attachments error]]|] eqn:Hrun; [|done].
    pose proof (extract_attachments_found _ _ _ _ _ _ Hrun) as [Hnd Hfound].
    pose proof (extract_attachments_le _ _ _ _ _ _ Hrun) as Hle1.
    pose proof (extract_attachments_frame _ _ _ _ _ _ Hrun) as Hframe1.
    assert (∀ c1 log1,
      worker_loop opts rest out s1 c1 log1 = Some (s', c', log') →
      (total_attachments c1
       = total_attachments c + length attachments)%nat →
      ∃ results,
        match extract_batch opts rest out s1 with
        | Some rs => Some ((eml_path, (attachments, error)) :: rs)
        | None => None
        end = Some results ∧
        NoDup (batch_paths results) ∧
        (∀ p, p ∈ batch_paths results →
              path_exists s p = false ∧ is_file s' p) ∧
        (total_attachments c'
         = total_attachments c + length (batch_paths results))%nat ∧
        fs_le s s' ∧
        (∀ p, ¬ out `prefix_of` p → read_file s' p = read_file s p))
      as Hstep.
    { intros c1 log1 Hrest Hc1.
      apply IH in Hrest
        as (rs & -> & Hnd' & Hpaths & Htotal & Hle & Hframe).
      exists ((eml_path, (attachments, error)) :: rs).
      unfold batch_paths in *. rewrite fmap_cons. simpl.
      split_and!.
      - done.
      - apply NoDup_app. split_and!; [done | | done].
        intros p Hp Hp'. destruct (Hfound p Hp) as [_ Hfile].
        destruct (Hpaths p Hp') as [Hfree _].
        apply path_exists_false in Hfree as [Hnone _].
        destruct Hfile as [data Hdata]. congruence.
      - intros p [Hp|Hp]%elem_of_app.
        + destruct (Hfound p Hp) as [Hfree [data Hdata]]. split; [done|].
          exists data. by apply Hle.
        + destruct (Hpaths p Hp) as [Hfree Hfile]. split; [|done].
          by eapply fs_le_fresh.
      - rewrite length_app. lia.
      - by eapply fs_le_trans.
      - intros p Hp. rewrite (Hframe p Hp). by apply Hframe1. }
    destruct (truthy error) eqn:Herr.
    + intros Hrest. eapply Hstep; [done|]. simpl.
      destruct error as [error|]; [|done].
      apply extract_attachments_error in Hrun as ->. simpl. lia.
    + case_bool_decide as Hatt; intros Hrest;
        (eapply Hstep; [done|]); simpl; [lia|].
      assert (attachments = []) as -> by (by destruct attachments).
      simpl. lia.
Qed.

End Batches.

(** X12: in a batch no attachment takes the place of another, also
    across messages: the paths all runs of the batch return are pairwise
    distinct, nothing existed at any of them before the batch and each is
    a file after it, and the attachment count the worker reports is their
    number.  The batch keeps the content of every file that existed and
    changes no file outside the output directory. *)
Theorem batch_writes_distinct_new_files `{Library} (opts : options)
    (eml_files : list path) (out : path) (s s' : fs) (c : counters)
    (log : list log_line)
    (Hbatch : extraction_worker opts eml_files out s = Some (s', c, log)) :
  ∃ results,
    extract_batch opts eml_files out s = Some results ∧
    NoDup (batch_paths results) ∧
    (∀ p, p ∈ batch_paths results → path_exists s p = false ∧ is_file s' p) ∧
    total_attachments c = length (batch_paths results) ∧
    (∀ p data, read_file s p = Some data → read_file s' p = Some data) ∧
    (∀ p, ¬ out `prefix_of` p → read_file s' p = read_file s p).
Proof.
  apply worker_loop_paths in Hbatch
    as (results & Hb & Hnd & Hpaths & Htotal & [Hle _] & Hframe).
  exists results. split_and!; try done.
Qed.

(** Two messages with the same attachment name, without subject folders:
    the second file is numbered. *)
Lemma batch_writes_distinct_new_files_witness :
  ∃ s' log,
    @extraction_worker sample (Options false false) [q4_eml; q4_eml] OUT
      empty_fs
    = Some (s', Counters 2 2 0, log) ∧
    is_file s' [lit "out"; lit "report.pdf"] ∧
    is_file s' [lit "out"; lit "report_1.pdf"].
Proof.
  assert (∃ s' log,
    @extraction_worker sample (Options false false) [q4_eml; q4_eml] OUT
      empty_fs = Some (s', Counters 2 2 0, log)) as (s' & log & Hbatch).
  { eexists _, _. vm_compute. reflexivity. }
  exists s', log. split; [exact Hbatch|].
  destruct (@batch_writes_distinct_new_files sample (Options false false)
              [q4_eml; q4_eml] OUT empty_fs s' _ log Hbatch)
    as (results & Hb & _ & Hpaths & _).
  assert (results
          = [(q4_eml, ([[lit "out"; lit "report.pdf"]], None));
             (q4_eml, ([[lit "out"; lit "report_1.pdf"]], None))]) as ->.
  { vm_compute in Hb. injection Hb as <-. reflexivity. }
  split.
  - apply (Hpaths [lit "out"; lit "report.pdf"]). left.
  - apply (Hpaths [lit "out"; lit "report_1.pdf"]). right. left.
Defined.

(** ** The file list *)

Lemma add_files_loop_spec {A} `{EqDecision A} (files eml_files : list A)
    (added_count : nat) :
  ∃ added,
    add_files_loop files eml_files added_count
    = (eml_files ++ added, (added_count + length added)%nat) ∧
    NoDup added ∧
    (∀ x, x ∈ added ↔ x ∈ files ∧ x ∉ eml_files) ∧
    added `sublist_of` files.
Proof.
  revert eml_files added_count.
  induction files as [|f files IH]; intros eml n; simpl.
  - exists []. rewrite List.app_nil_r, Nat.add_0_r. split_and!; try done.
    + constructor.
    + intros x. split; [by intros ?%elem_of_nil | by intros [?%elem_of_nil _]].
  - case_bool_decide as Hin.
    + destruct (IH eml n) as (added & -> & Hnd & Hmem & Hsub).
      exists added. split_and!; try done.
      * intros x. rewrite Hmem, elem_of_cons. split; [tauto|].
        intros [[->|Hx] Hne]; [done | tauto].
      * by apply sublist_cons.
    + destruct (IH (eml ++ [f]) (n + 1)%nat) as (added & -> & Hnd & Hmem & Hsub).
      exists (f :: added). split_and!.
      * rewrite <- List.app_assoc. simpl. f_equal. lia.
      * constructor; [|done]. rewrite Hmem. intros [_ Hf]. apply Hf.
        apply elem_of_app. right. left.
      * intros x. rewrite !elem_of_cons, Hmem, elem_of_app,
          list_elem_of_singleton.
        split.
        -- intros [->|[Hx Hne]]; [tauto | split; [tauto|]].
           intros Hx'. apply Hne. by left.
        -- intros [[->|Hx] Hne]; [by left|].
           destruct (decide (x = f)) as [->|Hxf]; [by left | right].
           split; [done|]. intros [?|?]; done.
      * by apply sublist_skip.
Qed.

Lemma add_files_loop_known {A} `{EqDecision A} (files eml_files : list A)
    (added_count : nat) :
  Forall (λ x, x ∈ eml_files) files →
  add_files_loop files eml_files added_count = (eml_files, added_count).
Proof.
  induction 1 as [|f files Hf _ IH]; simpl; [done|].
  by rewrite bool_decide_eq_true_2.
Qed.

(** X13: [add_files] appends to the list, in their order, the given
    paths that are not yet in it, each once: the old list stays in front
    as it was, the count it reports is the number of entries it has
    appended, a list without duplicates stays without duplicates, and
    adding the same paths again appends nothing.  After [clear_files] the
    list it builds has no duplicate. *)
Theorem add_files_appends_new {A} `{EqDecision A} (files eml_files : list A) :
  ∃ added,
    add_files files eml_files = (eml_files ++ added, length added) ∧
    NoDup added ∧
    (∀ x, x ∈ added ↔ x ∈ files ∧ x ∉ eml_files) ∧
    added `sublist_of` files ∧
    (NoDup eml_files → NoDup (add_files files eml_files).1) ∧
    add_files files (add_files files eml_files).1
    = ((add_files files eml_files).1, 0%nat) ∧
    NoDup (add_files files (clear_files eml_files)).1.
Proof.
  destruct (add_files_loop_spec files eml_files 0)
    as (added & Hadd & Hnd & Hmem & Hsub).
  exists added. unfold add_files. rewrite Hadd. simpl. split_and!; try done.
  - intros Hold. apply NoDup_app. split_and!; [done | | done].
    intros x Hx Hx'. apply Hmem in Hx'. tauto.
  - apply add_files_loop_known. apply Forall_forall. intros x Hx.
    apply elem_of_app.
    destruct (decide (x ∈ eml_files)) as [|Hne]; [by left | right].
    by apply Hmem.
  - destruct (add_files_loop_spec files [] 0)
      as (added' & Hadd' & Hnd' & _).
    unfold clear_files. by rewrite Hadd'.
Qed.

(** Three paths, one of them twice, added to a list that holds one of
    them. *)
Lemma add_files_appends_new_witness :
  add_files [q4_eml; twin_eml; q4_eml; dots_eml] [twin_eml]
  = ([twin_eml; q4_eml; dots_eml], 2%nat) ∧
  NoDup (add_files [q4_eml; twin_eml; q4_eml; dots_eml] [twin_eml]).1.
Proof.
  split; [reflexivity|].
  destruct (add_files_appends_new [q4_eml; twin_eml; q4_eml; dots_eml]
              [twin_eml]) as (added & _ & _ & _ & _ & Hnd & _).
  apply Hnd. apply NoDup_singleton.
Defined.

(** ** Paths as strings *)

Lemma slash_split (c d x y : pystr) :
  SLASH ∉ c → SLASH ∉ d →
  (∀ a, head x = Some a → a = SLASH) → (∀ a, head y = Some a → a = SLASH) →
  c ++ x = d ++ y → c = d ∧ x = y.
Proof.
  revert d. induction c as [|a c IH]; intros [|b d] Hc Hd Hx Hy E; simpl in E.
  - done.
  - subst x. exfalso. apply Hd. rewrite (Hx b eq_refl). left.
  - subst y. exfalso. apply Hc. rewrite (Hy a eq_refl). left.
  - injection E as -> E.
    apply not_elem_of_cons in Hc as [_ Hc].
    apply not_elem_of_cons in Hd as [_ Hd].
    destruct (IH d Hc Hd Hx Hy E) as [-> ->]. done.
Qed.

Lemma concat_slash_inj (p q : path) :
  Forall (λ c, SLASH ∉ c) p → Forall (λ c, SLASH ∉ c) q →
  concat ((λ c, SLASH :: c) <$> p) = concat ((λ c, SLASH :: c) <$> q) →
  p = q.
Proof.
  intros Hp. revert q. induction Hp as [|c p Hc _ IH];
    intros q Hq E; destruct Hq as [|d q Hd Hq]; simpl in E; try done.
  injection E as E.
  assert (∀ r : path, ∀ a,
            head (concat ((λ c, SLASH :: c) <$> r)) = Some a → a = SLASH)
    as Hhead by (intros [|? ?] a; simpl; congruence).
  apply slash_split in E as [-> E]; try done; try apply Hhead.
  by rewrite (IH q Hq E).
Qed.

Lemma path_str_inj (p q : path) :
  p ≠ [] → q ≠ [] →
  Forall (λ c, SLASH ∉ c) p → Forall (λ c, SLASH ∉ c) q →
  path_str p = path_str q → p = q.
Proof.
  intros Hp Hq Hcp Hcq. unfold path_str.
  destruct p as [|c p]; [done|]. destruct q as [|d q]; [done|].
  by apply concat_slash_inj.
Qed.

Lemma ascii_lower_slash c : ascii_lower c = SLASH → c = SLASH.
Proof. unfold ascii_lower, SLASH. case_bool_decide; [lia | done]. Qed.

Lemma lstrip_subset chars s c : c ∈ lstrip chars s → c ∈ s.
Proof.
  destruct (lstrip_spec chars s) as (pre & E & _).
  intros Hc. rewrite E. apply elem_of_app. by right.
Qed.

Section PathStrings.
Context `{Library}.
Hypothesis unicode_lower_slash :
  ∀ t, SLASH ∉ t → SLASH ∉ unicode_lower t.

Lemma type_label_slash safe : SLASH ∉ safe → SLASH ∉ type_label safe.
Proof.
  intros Hs. unfold type_label. case_bool_decide.
  - by apply (bool_decide_unpack _).
  - intros Hin%lstrip_subset. revert Hin.
    assert (SLASH ∉ suffix safe) as Hsuf.
    { unfold suffix. case_bool_decide; [|by intros ?%elem_of_nil].
      intros Hin. apply Hs. rewrite <- (take_drop (Z.to_nat (rfind DOT safe))).
      apply elem_of_app. by right. }
    unfold str_lower. destruct (forallb is_ascii (suffix safe)).
    + intros (x & Hx & Hin)%list_elem_of_fmap.
      symmetry in Hx. apply ascii_lower_slash in Hx. by subst x.
    + by apply unicode_lower_slash.
Qed.

Lemma written_components_clean opts out s' p part subject eml_path :
  Forall (λ c, SLASH ∉ c) out →
  written_as opts
    (base_output_dir_of opts out
       (sanitize_filename (subject_of subject eml_path))) s' p part →
  p ≠ [] ∧ Forall (λ c, SLASH ∉ c) p.
Proof.
  intros Hout (filename & n & _ & Hn & -> & _).
  assert (∀ f, SLASH ∉ sanitize_filename f) as Hsan.
  { intros f Hin. pose proof (sanitize_filename_clean f) as Hc.
    rewrite Forall_forall in Hc. apply (Hc _ Hin).
    by apply (bool_decide_unpack _). }
  assert (SLASH ∉ n) as Hclean.
  { apply resolved_name_clean in Hn as [Hc _]. rewrite Forall_forall in Hc.
    intros Hin. apply (Hc _ Hin). by apply (bool_decide_unpack _). }
  split; [unfold joinpath; by destruct (target_dir _ _ _)|].
  unfold target_dir, base_output_dir_of, joinpath.
  destruct (classify_by_type opts), (create_subfolder opts);
    rewrite ?Forall_app, ?Forall_singleton; split_and!;
    (done || apply Hsan || apply type_label_slash, Hsan).
Qed.

End PathStrings.

(** X14: the strings a run returns are pairwise distinct, as the paths
    are: when no component of the output directory holds a slash, and
    lower-casing by the library brings no slash in, two returned paths
    never have the same string form. *)
Theorem written_path_strings_distinct `{Library} (opts : options)
    (s s' : fs) (eml_path out : path) (found : list path)
    (Hout : Forall (λ c, SLASH ∉ c) out)
    (Hlower : ∀ t, SLASH ∉ t → SLASH ∉ unicode_lower t)
    (Hrun : extract_attachments opts s eml_path out
            = Some (s', (found, None))) :
  NoDup (path_str <$> found).
Proof.
  apply extract_attachments_ok in Hrun
    as (msg & subject & s1 & _ & _ & _ & Hparts).
  apply extract_parts_inv in Hparts as (new & -> & Hw & _ & Hnd & _).
  simpl. apply NoDup_fmap_2_strong; [|done].
  apply Forall2_filter_true in Hw. rewrite Forall_forall in Hw.
  intros p q Hp Hq E.
  destruct (Hw p Hp) as (part & _ & Hwp).
  destruct (Hw q Hq) as (part' & _ & Hwq).
  apply (written_components_clean Hlower) in Hwp as [Hpne Hpc]; [|done].
  apply (written_components_clean Hlower) in Hwq as [Hqne Hqc]; [|done].
  by apply path_str_inj.
Qed.

(** The strings of the two files of the message with two attachments
    named a.txt. *)
Lemma written_path_strings_distinct_witness :
  NoDup [lit "/out/twins/a.txt"; lit "/out/twins/a_1.txt"].
Proof.
  assert (∃ s',
    @extract_attachments sample (Options true false) empty_fs twin_eml OUT
    = Some (s', ([[lit "out"; lit "twins"; lit "a.txt"];
                  [lit "out"; lit "twins"; lit "a_1.txt"]], None)))
    as [s' Hrun].
  { eexists. vm_compute. reflexivity. }
  apply (@written_path_strings_distinct sample (Options true false)
           empty_fs s' twin_eml OUT _) in Hrun.
  - exact Hrun.
  - repeat constructor. apply (bool_decide_unpack _). reflexivity.
  - intros t Ht. exact Ht.
Defined.

(** ** Edges of the sanitization and of the label *)

(** X15: the strip comes before the cut, so the cut can leave a name
    that ends in a space or a dot: a safe name of 199 characters followed
    by a space or a dot and by more text is sanitized to the 199
    characters and that space or dot. *)
Theorem sanitize_filename_cut_keeps_trailing (front tail : pystr) (c : N)
    (Hlen : length front = 199%nat)
    (Hfront : Forall (λ x, x ∉ illegal_chars) front)
    (Hhead : ∀ x, head front = Some x → x ∉ [SPACE; DOT])
    (Hc : c ∈ [SPACE; DOT])
    (Htail : Forall (λ x, x ∉ illegal_chars) tail)
    (Hlast : ∃ x, last tail = Some x ∧ x ∉ [SPACE; DOT]) :
  sanitize_filename (front ++ c :: tail) = front ++ [c] ∧
  last (sanitize_filename (front ++ c :: tail)) = Some c ∧
  length (sanitize_filename (front ++ c :: tail)) = 200%nat.
Proof.
  assert (sanitize_filename (front ++ c :: tail) = front ++ [c]) as Hs.
  { rewrite sanitize_filename_steps. simpl.
    destruct Hlast as (x & Hx & Hxc).
    assert (c ∉ illegal_chars) as Hcl.
    { apply elem_of_cons in Hc as [->|Hc];
        [|apply list_elem_of_singleton in Hc as ->];
        by apply (bool_decide_unpack _). }
    rewrite re_sub_id
      by (apply Forall_app; split; [done | by constructor]).
    rewrite strip_id.
    - replace (front ++ c :: tail) with ((front ++ [c]) ++ tail)
        by (by rewrite <- List.app_assoc).
      replace 200%nat with (length (front ++ [c]))
        by (rewrite length_app; simpl; lia).
      rewrite take_app_length.
      rewrite bool_decide_eq_false_2; [done|]. by destruct front.
    - destruct front as [|y front]; [done|]. simpl. intros z [= <-].
      by apply Hhead.
    - intros z Hz. apply last_app_Some in Hz as [Hz|[Hz _]].
      + rewrite last_cons, Hx in Hz. by injection Hz as <-.
      + apply last_None in Hz. discriminate Hz. }
  rewrite Hs. split_and!.
  - done.
  - by rewrite last_snoc.
  - rewrite length_app. simpl. lia.
Qed.

(** 199 letters a, a space and a letter b. *)
Lemma sanitize_filename_cut_keeps_trailing_witness :
  last (sanitize_filename (replicate 199 97 ++ SPACE :: [98])) = Some SPACE.
Proof.
  apply (sanitize_filename_cut_keeps_trailing (replicate 199 97) [98] SPACE).
  - apply length_replicate.
  - apply Forall_replicate. by apply (bool_decide_unpack _).
  - intros x [= <-]. by apply (bool_decide_unpack _).
  - left.
  - repeat constructor. by apply (bool_decide_unpack _).
  - exists 98. split; [reflexivity|]. by apply (bool_decide_unpack _).
Defined.

(** X16: the type label is never empty and never begins with a dot, so
    the type folder is a real, visible folder. *)
Theorem type_label_visible `{Library} (safe_filename : pystr) :
  type_label safe_filename ≠ [] ∧
  (∀ c, head (type_label safe_filename) = Some c → c ≠ DOT).
Proof.
  unfold type_label.
  destruct (lstrip_spec [DOT] (str_lower (suffix safe_filename)))
    as (pre & _ & _ & Hh).
  case_bool_decide as He; split; try done.
  - intros c [= <-]. done.
  - intros c Hc ->. apply (Hh DOT Hc). left.
Qed.
